(** * Frontmatter title scripts: a shallow embedding and its properties

    The repository holds two scripts that normalise the YAML frontmatter of
    a documentation tree:

    - [scripts/add-missing-titles.py] inserts a [title:] line, taken from
      the first H1 heading or generated from the file path;
    - [scripts/fix-title-quotes.py] wraps a title value that contains a
      colon in double quotes.

    Python text is modelled as a list of Unicode code points, the regular
    expressions of the scripts are written as values of a small regex type
    and run by a backtracking matcher, and the file accesses are modelled
    in a state-and-exception monad over a finite map from paths to files.

    A file is held as the text [read_text] returns for it, newlines
    already translated, and [write_text] stores the text it is given: the
    encoding and the conventions of line ends are below the model, and a
    write does not fail.  The files a script visits are a parameter of its
    [main], in the order the directory scan yields them. *)

From Stdlib Require Import NArith Ascii String.
From stdpp Require Import base tactics option numbers list gmap.

Local Open Scope N_scope.
Local Open Scope list_scope.

(** ** Text *)

(** A Python [str] is a sequence of code points. *)
Abbreviation char := N (only parsing).
Abbreviation str := (list N) (only parsing).

(** A literal of the source, written as a Rocq string. *)
Fixpoint py (s : string) : str :=
  match s with
  | EmptyString => []
  | String a s' => N_of_ascii a :: py s'
  end.

Definition nl : char := 10.
Definition dquote : char := 34.
Definition squote : char := 39.

(** [str.isspace] on one code point, which is also the class [\s] of [re]
    on text patterns: the white space of the Unicode character database. *)
Definition isspace (c : char) : bool :=
  ((0x09 <=? c) && (c <=? 0x0D)) || ((0x1C <=? c) && (c <=? 0x20))
  || (c =? 0x85) || (c =? 0xA0) || (c =? 0x1680)
  || ((0x2000 <=? c) && (c <=? 0x200A))
  || (c =? 0x2028) || (c =? 0x2029) || (c =? 0x202F) || (c =? 0x205F)
  || (c =? 0x3000).

(** Case mapping.  The letters of ASCII are mapped as Python does; the
    Unicode case tables are not reproduced, and every other code point is
    left as it is.  Statements about case are made for ASCII text. *)
Definition is_ascii (c : char) : bool := c <? 128.
Definition is_ascii_upper (c : char) : bool := (65 <=? c) && (c <=? 90).
Definition is_ascii_lower (c : char) : bool := (97 <=? c) && (c <=? 122).
Definition upper (c : char) : char := if is_ascii_lower c then c - 32 else c.
Definition lower (c : char) : char := if is_ascii_upper c then c + 32 else c.

(** [s.startswith(p)] *)
Fixpoint startswith (p s : str) : bool :=
  match p, s with
  | [], _ => true
  | a :: p', b :: s' => (a =? b) && startswith p' s'
  | _ :: _, [] => false
  end.

(** [s.lstrip()], [s.rstrip()] and [s.strip()] *)
Fixpoint lstrip (s : str) : str :=
  match s with
  | c :: s' => if isspace c then lstrip s' else s
  | [] => []
  end.
Definition rstrip (s : str) : str := reverse (lstrip (reverse s)).
Definition strip (s : str) : str := rstrip (lstrip s).

(** Splitting at every character of a class.  With the class of one
    character this is [s.split(sep)]; with the class [[-_]] it is
    [re.split(r'[-_]', s)].  Empty pieces are kept, as Python keeps them. *)
Fixpoint split_on (p : char -> bool) (s : str) : list str :=
  match s with
  | [] => [[]]
  | c :: s' =>
      if p c then [] :: split_on p s'
      else match split_on p s' with
           | w :: ws => (c :: w) :: ws
           | [] => [[c]]
           end
  end.

Definition split (sep : char) (s : str) : list str := split_on (N.eqb sep) s.

(** [sep.join(pieces)] *)
Fixpoint join (sep : str) (pieces : list str) : str :=
  match pieces with
  | [] => []
  | [w] => w
  | w :: ws => w ++ sep ++ join sep ws
  end.

(** [s.capitalize()]: the first character in upper case, the others in
    lower case. *)
Definition capitalize (s : str) : str :=
  match s with
  | [] => []
  | c :: s' => upper c :: map lower s'
  end.

(** ** Regular expressions *)

(** The fragment of [re] the two scripts use: anchors, literal characters,
    classes, concatenation, the greedy star and one capturing group. *)
Inductive regex : Type :=
| Eps
| Bol
| Eol
| Chr (c : char)
| Cls (p : char -> bool)
| Cat (r1 r2 : regex)
| Star (r : regex)
| Grp (r : regex).

Definition Plus (r : regex) : regex := Cat r (Star r).
Definition Seq (rs : list regex) : regex := foldr Cat Eps rs.
Definition Lit (s : str) : regex := Seq (map Chr s).

(** [.] is every character but the newline, [\s] is [isspace]. *)
Definition dot : regex := Cls (fun c => negb (c =? nl)).
Definition space : regex := Cls isspace.
Definition none_of (cs : str) : regex := Cls (fun c => negb (bool_decide (c ∈ cs))).

(** The matcher walks the subject from left to right.  Its state holds the
    character before the current position (for [^]), the text still to be
    read, and what group 1 captured. *)
Record mstate : Type := MState {
  prev : option char;
  rest : str;
  group1 : option str;
}.

Definition at_bol (multiline : bool) (s : mstate) : bool :=
  match prev s with
  | None => true
  | Some c => multiline && (c =? nl)
  end.

Definition at_eol (multiline : bool) (s : mstate) : bool :=
  match rest s with
  | [] => true
  | [c] => c =? nl
  | c :: _ => multiline && (c =? nl)
  end.

Definition eat (p : char -> bool) (k : mstate -> option mstate) (s : mstate)
  : option mstate :=
  match rest s with
  | c :: s' => if p c then k (MState (Some c) s' (group1 s)) else None
  | [] => None
  end.

(** What was read between two states of one run. *)
Definition consumed (s s' : mstate) : str :=
  take (length (rest s) - length (rest s')) (rest s).

(** Backtracking matcher in continuation-passing style: [k] is the rest of
    the pattern, and a failure of [k] makes the star give a character
    back.  The star is greedy; an iteration that reads nothing ends it. *)
Fixpoint rmatch (multiline : bool) (r : regex)
    (k : mstate -> option mstate) (s : mstate) : option mstate :=
  match r with
  | Eps => k s
  | Bol => if at_bol multiline s then k s else None
  | Eol => if at_eol multiline s then k s else None
  | Chr c => eat (N.eqb c) k s
  | Cls p => eat p k s
  | Cat r1 r2 => rmatch multiline r1 (rmatch multiline r2 k) s
  | Star r1 =>
      (fix loop (fuel : nat) (s : mstate) : option mstate :=
         match fuel with
         | O => k s
         | S fuel' =>
             match rmatch multiline r1
                     (fun s' => if bool_decide (length (rest s') < length (rest s))%nat
                                then loop fuel' s' else None) s with
             | Some m => Some m
             | None => k s
             end
         end) (length (rest s)) s
  | Grp r1 =>
      rmatch multiline r1
        (fun s' => k (MState (prev s') (rest s') (Some (consumed s s')))) s
  end.

(** [re.match(r, s)]: a match at the start of [s]. *)
Definition re_match (multiline : bool) (r : regex) (s : str) : option mstate :=
  rmatch multiline r Some (MState None s None).

(** [re.search(r, s)]: the leftmost match. *)
Fixpoint search_from (multiline : bool) (r : regex) (before : option char)
    (s : str) : option mstate :=
  match rmatch multiline r Some (MState before s None) with
  | Some m => Some m
  | None =>
      match s with
      | [] => None
      | c :: s' => search_from multiline r (Some c) s'
      end
  end.

Definition re_search (multiline : bool) (r : regex) (s : str) : option mstate :=
  search_from multiline r None s.

(** [m.group(1)] of a match whose group took part in it. *)
Definition group (m : mstate) : str := default [] (group1 m).

(** What a pattern may read, as a relation between the state before and
    the state after; the matcher finds one of these runs. *)
Inductive steps (multiline : bool) : regex -> mstate -> mstate -> Prop :=
| steps_eps s : steps multiline Eps s s
| steps_bol s : at_bol multiline s = true -> steps multiline Bol s s
| steps_eol s : at_eol multiline s = true -> steps multiline Eol s s
| steps_chr c s s' :
    rest s = c :: s' ->
    steps multiline (Chr c) s (MState (Some c) s' (group1 s))
| steps_cls p c s s' :
    rest s = c :: s' -> p c = true ->
    steps multiline (Cls p) s (MState (Some c) s' (group1 s))
| steps_cat r1 r2 s s1 s2 :
    steps multiline r1 s s1 -> steps multiline r2 s1 s2 ->
    steps multiline (Cat r1 r2) s s2
| steps_star_done r s : steps multiline (Star r) s s
| steps_star_more r s s1 s2 :
    steps multiline r s s1 -> steps multiline (Star r) s1 s2 ->
    steps multiline (Star r) s s2
| steps_grp r s s1 :
    steps multiline r s s1 ->
    steps multiline (Grp r) s (MState (prev s1) (rest s1) (Some (consumed s s1))).

(** ** Paths *)

(** A relative [pathlib.Path], held as its components. *)
Abbreviation Path := (list (list N)) (only parsing).

Definition ch (a : ascii) : char := N_of_ascii a.

(** [p.name]: the last component. *)
Definition path_name (p : Path) : str := default [] (last p).

(** [p.parent.name]: the component before the last. *)
Definition parent_name (p : Path) : str := path_name (removelast p).

(** [name.rfind('.')], [None] standing for -1. *)
Fixpoint rfind_from (c : char) (s : str) (i : nat) (found : option nat)
  : option nat :=
  match s with
  | [] => found
  | x :: s' => rfind_from c s' (S i) (if x =? c then Some i else found)
  end.

(** [p.stem]: the name without its last suffix; a name that starts or ends
    with its only dot has no suffix. *)
Definition path_stem (p : Path) : str :=
  let name := path_name p in
  match rfind_from (ch ".") name 0 None with
  | Some i =>
      if bool_decide (0 < i < length name - 1)%nat then take i name else name
  | None => name
  end.

(** [str(p)] *)
Definition path_str (p : Path) : str := join (py "/") p.

(** ** Files, output and exceptions *)

(** A file holds text, or bytes that do not decode as text. *)
Inductive file : Type :=
| Text (s : str)
| Undecodable.

Inductive exn : Type :=
| FileNotFoundError
| UnicodeDecodeError.

(** The lines the scripts print. *)
Inductive event : Type :=
| Skipping (p : Path)
| AddedTitle (p : Path) (title : str)
| QuotedTitle (p : Path)
| Processed (n : nat)
| QuotingComplete.

(** The files, by path, and what was printed.  Every path names a file of
    its own: two paths that reach one file through a link are outside the
    model, and so is what a run does to a file through another path. *)
Record world : Type := World {
  files : gmap Path file;
  output : list event;
}.

Inductive result (A : Type) : Type :=
| Ok (a : A)
| Raise (e : exn).
Arguments Ok {A} a.
Arguments Raise {A} e.

(** A command runs in a world and ends with a value or an exception; what
    it wrote before an exception stays written. *)
Definition io (A : Type) : Type := world -> result A * world.

Definition io_ret {A} (a : A) : io A := fun w => (Ok a, w).
Definition io_bind {A B} (m : io A) (f : A -> io B) : io B :=
  fun w =>
    match m w with
    | (Ok a, w') => f a w'
    | (Raise e, w') => (Raise e, w')
    end.

Notation "x <- m ;; k" := (io_bind m (fun x => k))
  (at level 100, m at next level, right associativity).
Notation "m ;; k" := (io_bind m (fun _ => k))
  (at level 100, right associativity).

(** [p.read_text()] *)
Definition read_text (p : Path) : io str :=
  fun w =>
    match files w !! p with
    | None => (Raise FileNotFoundError, w)
    | Some Undecodable => (Raise UnicodeDecodeError, w)
    | Some (Text s) => (Ok s, w)
    end.

(** [p.write_text(s)].  The write does not fail here: a file that cannot be
    written, or a text that cannot be encoded, is outside the model, and
    the statements below say what is written when the write goes
    through. *)
Definition write_text (p : Path) (s : str) : io unit :=
  fun w => (Ok tt, World (<[p := Text s]> (files w)) (output w)).

(** [print(...)], which does not fail here either. *)
Definition print (e : event) : io unit :=
  fun w => (Ok tt, World (files w) (output w ++ [e])).

(** ** scripts/add-missing-titles.py *)

Module AddMissingTitles.

(** [r'^#\s+(.+)$'] *)
Definition h1_re : regex :=
  Seq [Bol; Chr (ch "#"); Plus space; Grp (Plus dot); Eol].

(** The loop of [extract_h1] over the lines. *)
Fixpoint first_h1 (lines : list str) : option str :=
  match lines with
  | [] => None
  | line :: lines' =>
      match re_match false h1_re line with
      | Some m => Some (strip (group m))
      | None => first_h1 lines'
      end
  end.

Definition extract_h1 (content : str) : option str :=
  first_h1 (split nl content).

Definition is_separator (c : char) : bool := (c =? ch "-") || (c =? ch "_").

(** The name the title is made from: the stem, or the name of the parent
    directory for an index file. *)
Definition title_basename (file_path : Path) : str :=
  let basename := path_stem file_path in
  if bool_decide (basename = py "index") then parent_name file_path
  else basename.

Definition generate_title_from_path (file_path : Path) : str :=
  let basename := title_basename file_path in
  let words := split_on is_separator basename in
  join (py " ") (map capitalize words).

Definition has_frontmatter (content : str) : bool :=
  startswith (py "---" ++ [nl]) content.

(** The loop [for i, line in enumerate(lines[1:], 1)] of
    [extract_frontmatter], which stops at the first delimiter. *)
Fixpoint find_end (lines : list str) (i : nat) : option nat :=
  match lines with
  | [] => None
  | line :: lines' =>
      if bool_decide (strip line = py "---") then Some i
      else find_end lines' (S i)
  end.

(** [l[a:b]] for indices that are not negative. *)
Definition slice {A} (a b : nat) (l : list A) : list A := drop a (take b l).

Definition extract_frontmatter (content : str) : str * str :=
  if negb (has_frontmatter content) then ([], content)
  else
    let lines := split nl content in
    match find_end (drop 1 lines) 1 with
    | None => ([], content)
    | Some end_idx =>
        (join [nl] (slice 1 end_idx lines), join [nl] (drop (end_idx + 1) lines))
    end.

(** [r'^title:'], searched with [re.MULTILINE]. *)
Definition title_re : regex := Seq [Bol; Lit (py "title:")].

(** The title the file gets: the first H1 when there is one and it is not
    empty, the title made from the path otherwise. *)
Definition resolve_title (file_path : Path) (content : str) : str :=
  match extract_h1 content with
  | Some (c :: t) => c :: t
  | _ => generate_title_from_path file_path
  end.

(** What [add_title_to_file] writes when it writes. *)
Definition new_content (title frontmatter body : str) : str :=
  let new_frontmatter :=
    match frontmatter with
    | _ :: _ => py "title: " ++ title ++ [nl] ++ frontmatter
    | [] => py "title: " ++ title
    end in
  py "---" ++ [nl] ++ new_frontmatter ++ [nl] ++ py "---" ++ [nl] ++ lstrip body.

Definition add_title_to_file (file_path : Path) : io unit :=
  content <- read_text file_path ;;
  let title := resolve_title file_path content in
  let '(frontmatter, body) := extract_frontmatter content in
  match re_search true title_re frontmatter with
  | Some _ => print (Skipping file_path)
  | None =>
      write_text file_path (new_content title frontmatter body) ;;
      print (AddedTitle file_path title)
  end.

Definition exclusions : list str :=
  [py "docs/tags.md"; py "docs/includes/"].

Definition excluded (md_file : Path) : bool :=
  existsb (fun exc => startswith exc (path_str md_file)) exclusions.

(** The loop of [main] over the files [rglob] found, in the order it found
    them. *)
Fixpoint process (md_files : list Path) (processed : nat) : io nat :=
  match md_files with
  | [] => io_ret processed
  | md_file :: md_files' =>
      if excluded md_file then process md_files' processed
      else
        add_title_to_file md_file ;;
        process md_files' (S processed)
  end.

Definition main (md_files : list Path) : io unit :=
  processed <- process md_files 0 ;;
  print (Processed processed).

End AddMissingTitles.

(** ** scripts/fix-title-quotes.py *)

Module FixTitleQuotes.

Definition quotes : str := [dquote; squote].

(** [r'^title:\s+[^"\'].*:.*[^"\']$'] *)
Definition unquoted_re : regex :=
  Seq [Bol; Lit (py "title:"); Plus space; none_of quotes; Star dot;
       Chr (ch ":"); Star dot; none_of quotes; Eol].

(** [r'^title:\s+(.+)$'] *)
Definition value_re : regex :=
  Seq [Bol; Lit (py "title:"); Plus space; Grp (Plus dot); Eol].

(** The body of the loop on one line: the new line when the line is to be
    quoted. *)
Definition quote_line (line : str) : option str :=
  match re_match false unquoted_re line with
  | Some _ =>
      match re_match false value_re line with
      | Some m =>
          let title_value := group m in
          if negb (startswith [dquote] title_value
                   || startswith [squote] title_value)
          then Some (py "title: " ++ [dquote] ++ title_value ++ [dquote])
          else None
      | None => None
      end
  | None => None
  end.

(** The loop [for i, line in enumerate(lines)], which stops at the first
    line it quotes. *)
Fixpoint scan (lines : list str) (i : nat) : option (nat * str) :=
  match lines with
  | [] => None
  | line :: lines' =>
      match quote_line line with
      | Some line' => Some (i, line')
      | None => scan lines' (S i)
      end
  end.

Definition fix_title_in_file (file_path : Path) : io unit :=
  content <- read_text file_path ;;
  let lines := split nl content in
  match scan lines 0 with
  | Some (i, line') =>
      print (QuotedTitle file_path) ;;
      write_text file_path (join [nl] (<[i := line']> lines))
  | None => io_ret tt
  end.

(** The loop of [main] over the files [glob] found. *)
Fixpoint process (md_files : list Path) : io unit :=
  match md_files with
  | [] => io_ret tt
  | md_file :: md_files' =>
      fix_title_in_file md_file ;;
      process md_files'
  end.

Definition main (md_files : list Path) : io unit :=
  process md_files ;;
  print QuotingComplete.

End FixTitleQuotes.

(** ** Notions used in the statements *)

(** Line [e] is where the frontmatter of a document with these lines
    closes: the first line after line 0 that is [---] once stripped. *)
Definition closes_at (lines : list str) (e : nat) : Prop :=
  (1 <= e)%nat
  /\ (exists l, lines !! e = Some l /\ strip l = py "---")
  /\ (forall j l, (1 <= j < e)%nat -> lines !! j = Some l -> strip l <> py "---").

(** Position [i] of a base name is where a token starts: the first
    position, or the one after a separator. *)
Definition token_start (basename : str) (i : nat) : bool :=
  match i with
  | O => true
  | S j => from_option AddMissingTitles.is_separator false (basename !! j)
  end.

(** The title read off the base name character by character; [start]
    tells whether the next character starts a token. *)
Fixpoint render (start : bool) (basename : str) : str :=
  match basename with
  | [] => []
  | c :: basename' =>
      (if AddMissingTitles.is_separator c then ch " "
       else if start then upper c else lower c)
      :: render (AddMissingTitles.is_separator c) basename'
  end.

(** The state of the matcher after it has read the text [a]. *)
Definition advance (s : mstate) (a : str) : mstate :=
  MState (from_option Some (prev s) (last a)) (drop (length a) (rest s)) (group1 s).

(** The text of a heading line, without the pattern: the line is a hash, a
    white space character and at least one more character, and the text
    is what follows the hash, stripped. *)
Definition h1_text (line : str) : option str :=
  match line with
  | h :: c :: x :: r =>
      if (h =? ch "#") && isspace c then Some (strip (c :: x :: r)) else None
  | _ => None
  end.

(** The lines of a document the quoter would quote. *)
Definition quotable_lines (content : str) : list str :=
  filter (fun l => is_Some (FixTitleQuotes.quote_line l)) (split nl content).

(** The exception [read_text] raises for a path, when it raises one: the
    path does not exist, or its content does not decode as text. *)
Definition read_error (w : world) (p : Path) : option exn :=
  match files w !! p with
  | None => Some FileNotFoundError
  | Some Undecodable => Some UnicodeDecodeError
  | Some (Text _) => None
  end.

(** The quoter without its patterns. *)

Definition is_quote (c : char) : bool := (c =? dquote) || (c =? squote).

(** Some character of the text other than its last one is a colon. *)
Fixpoint colon_before_last (s : str) : bool :=
  match s with
  | c :: ((_ :: _) as s') => (c =? ch ":") || colon_before_last s'
  | _ => false
  end.

(** The value of a title line that is to be quoted.  The line is [title:],
    one or more white space characters, and the value, which starts with a
    character that is neither white space nor a quote, does not end with a
    quote, and has a colon with at least one character after it; the colon
    is not the first character of the value, unless two or more white
    space characters come before the value. *)
Definition title_value (line : str) : option str :=
  if startswith (py "title:") line then
    let text := drop (length (py "title:")) line in
    let value := lstrip text in
    let spaces := (length text - length value)%nat in
    match value with
    | first :: others =>
        if bool_decide (1 <= spaces)%nat
           && negb (is_quote first)
           && negb (from_option is_quote false (last value))
           && colon_before_last
                (if bool_decide (2 <= spaces)%nat then value else others)
        then Some value
        else None
    | [] => None
    end
  else None.

(** The line a title line becomes: the value between double quotes. *)
Definition quoted_title (value : str) : str :=
  py "title: " ++ [dquote] ++ value ++ [dquote].

(** The first line of a document that is a title line to quote, with its
    index counted from [i], and its value. *)
Fixpoint first_title_value (lines : list str) (i : nat) : option (nat * str) :=
  match lines with
  | [] => None
  | line :: lines' =>
      match title_value line with
      | Some value => Some (i, value)
      | None => first_title_value lines' (S i)
      end
  end.

(** The lines of a document given line by line. *)
Definition doc (lines : list string) : str := join [nl] (map py lines).

(** ** The specification's reading, for comparison with the code *)

Module Spec.

(** The closing delimiter as the specification words it: a line that is
    exactly [---]. *)
Fixpoint find_end (lines : list str) (i : nat) : option nat :=
  match lines with
  | [] => None
  | line :: lines' =>
      if bool_decide (line = py "---") then Some i
      else find_end lines' (S i)
  end.

Definition extract_frontmatter (content : str) : str * str :=
  if negb (AddMissingTitles.has_frontmatter content) then ([], content)
  else
    let lines := split nl content in
    match find_end (drop 1 lines) 1 with
    | None => ([], content)
    | Some end_idx =>
        (join [nl] (AddMissingTitles.slice 1 end_idx lines),
         join [nl] (drop (end_idx + 1) lines))
    end.

(** A token as the specification words it: the first character in upper
    case, the others as they are. *)
Definition render_token (s : str) : str :=
  match s with
  | [] => []
  | c :: s' => upper c :: s'
  end.

(** The title as the specification words it: empty tokens dropped. *)
Definition title_of_basename (basename : str) : str :=
  let words := split_on AddMissingTitles.is_separator basename in
  join (py " ")
    (map capitalize (filter (fun w => w <> []) words)).

End Spec.

(** * Properties *)

(** ** Splitting and joining *)

Section SplitJoin.
Variable p : char -> bool.

Lemma split_on_nonempty s : split_on p s <> [].
Proof. destruct s as [|c s]; simpl; [done|]. destruct (p c); [done|]. by destruct (split_on p s). Qed.

(** A prefix without separator stays in front of the first piece. *)
Lemma split_on_prefix a s :
  Forall (fun c => p c = false) a ->
  exists w ws, split_on p s = w :: ws /\ split_on p (a ++ s) = (a ++ w) :: ws.
Proof.
  induction 1 as [|c a Hc _ IH]; simpl.
  - destruct (split_on p s) as [|w ws] eqn:E; [by apply split_on_nonempty in E|].
    by exists w, ws.
  - destruct IH as (w & ws & E1 & E2). rewrite Hc, E2. by exists w, ws.
Qed.

Lemma split_on_whole a :
  Forall (fun c => p c = false) a -> split_on p a = [a].
Proof.
  intros Ha. destruct (split_on_prefix a [] Ha) as (w & ws & E1 & E2).
  simpl in E1. simplify_eq. by rewrite !app_nil_r in E2.
Qed.

(** Splitting goes through a separator. *)
Lemma split_on_app a c b :
  p c = true -> split_on p (a ++ c :: b) = split_on p a ++ split_on p b.
Proof.
  intros Hc. induction a as [|x a IH]; simpl.
  - by rewrite Hc.
  - destruct (p x); [by rewrite IH|].
    rewrite IH. destruct (split_on p a) as [|w ws] eqn:E; [by apply split_on_nonempty in E|].
    done.
Qed.

Lemma split_on_pieces s w :
  w ∈ split_on p s -> Forall (fun c => p c = false) w.
Proof.
  revert w. induction s as [|c s IH]; simpl; intros w Hw.
  - apply list_elem_of_singleton in Hw. by subst.
  - destruct (p c) eqn:Hc.
    + apply elem_of_cons in Hw as [->|Hw]; [done|]. by apply IH.
    + destruct (split_on p s) as [|w' ws] eqn:E; [by apply split_on_nonempty in E|].
      apply elem_of_cons in Hw as [->|Hw].
      * constructor; [done|]. apply IH. by left.
      * apply IH. by right.
Qed.
End SplitJoin.

Lemma join_cons sep w w' ws : join sep (w :: w' :: ws) = w ++ sep ++ join sep (w' :: ws).
Proof. done. Qed.

Lemma join_app sep l1 l2 :
  l1 <> [] -> l2 <> [] -> join sep (l1 ++ l2) = join sep l1 ++ sep ++ join sep l2.
Proof.
  intros H1 H2. induction l1 as [|w l1 IH]; [done|].
  destruct l1 as [|w' l1].
  - destruct l2; [done|]. done.
  - change ((w :: w' :: l1) ++ l2) with (w :: w' :: (l1 ++ l2)).
    rewrite !join_cons. change (w' :: l1 ++ l2) with ((w' :: l1) ++ l2).
    rewrite IH by done. by rewrite <- !app_assoc.
Qed.

(** [sep.join(s.split(sep)) == s] *)
Lemma join_split c s : join [c] (split c s) = s.
Proof.
  unfold split. induction s as [|x s IH]; [done|]. cbn [split_on].
  destruct (split_on (N.eqb c) s) as [|w ws] eqn:E; [by apply split_on_nonempty in E|].
  destruct (N.eqb_spec c x) as [->|Hne].
  - rewrite join_cons, IH. done.
  - destruct ws as [|w' ws]; [simpl in *; by subst|].
    rewrite join_cons in *. by rewrite <- IH.
Qed.

(** [sep.join(lines).split(sep) == lines] for lines without [sep]. *)
Lemma split_join c lines :
  lines <> [] -> Forall (Forall (fun x => (c =? x) = false)) lines ->
  split c (join [c] lines) = lines.
Proof.
  unfold split. intros Hne Hall. induction Hall as [|w ws Hw Hws IH]; [done|].
  destruct ws as [|w' ws].
  - simpl. by apply split_on_whole.
  - rewrite join_cons.
    change (w ++ [c] ++ join [c] (w' :: ws)) with (w ++ c :: join [c] (w' :: ws)).
    rewrite split_on_app by apply N.eqb_refl.
    rewrite IH by done. by rewrite split_on_whole.
Qed.

Lemma split_lines_no_nl c s w : w ∈ split c s -> Forall (fun x => (c =? x) = false) w.
Proof. apply split_on_pieces. Qed.

(** ** Stripping *)

Lemma lstrip_app_other a c b :
  isspace c = false -> lstrip (a ++ c :: b) = lstrip a ++ c :: b.
Proof.
  intros Hc. induction a as [|x a IH]; simpl; [by rewrite Hc|].
  by destruct (isspace x).
Qed.

Lemma rstrip_cons_other c s : isspace c = false -> rstrip (c :: s) = c :: rstrip s.
Proof.
  intros Hc. unfold rstrip. rewrite reverse_cons.
  change (reverse s ++ [c]) with (reverse s ++ c :: []).
  rewrite lstrip_app_other by done.
  by rewrite reverse_app.
Qed.

Lemma strip_cons_other c s : isspace c = false -> strip (c :: s) = c :: rstrip s.
Proof. intros Hc. unfold strip. simpl. rewrite Hc. by apply rstrip_cons_other. Qed.

Lemma lstrip_spaces a s : Forall (fun c => isspace c = true) a -> lstrip (a ++ s) = lstrip s.
Proof. induction 1 as [|c a Hc _ IH]; simpl; [done|]. by rewrite Hc. Qed.

Lemma rstrip_spaces s b : Forall (fun c => isspace c = true) b -> rstrip (s ++ b) = rstrip s.
Proof.
  intros Hb. unfold rstrip. rewrite reverse_app, lstrip_spaces; [done|].
  rewrite Forall_forall in *. intros x Hx. apply Hb. by apply elem_of_reverse.
Qed.

(** A delimiter line may have white space on both sides of the dashes. *)
Lemma strip_delimiter a b :
  Forall (fun c => isspace c = true) a -> Forall (fun c => isspace c = true) b ->
  strip (a ++ py "---" ++ b) = py "---".
Proof.
  intros Ha Hb. unfold strip. rewrite lstrip_spaces by done.
  change (lstrip (py "---" ++ b)) with (py "---" ++ b).
  rewrite rstrip_spaces by done. reflexivity.
Qed.

(** ** The frontmatter splitter *)

Import AddMissingTitles.

Lemma find_end_none lines i :
  find_end lines i = None <-> Forall (fun l => strip l <> py "---") lines.
Proof.
  revert i. induction lines as [|l lines IH]; intros i; simpl.
  - split; [constructor|done].
  - case_bool_decide as Hl.
    + split; [done|]. by inversion 1.
    + rewrite IH. split; [by constructor|by inversion 1].
Qed.

Lemma find_end_some lines i e :
  find_end lines i = Some e <->
  (i <= e)%nat /\ (exists l, lines !! (e - i)%nat = Some l /\ strip l = py "---")
  /\ (forall j l, (j < e - i)%nat -> lines !! j = Some l -> strip l <> py "---").
Proof.
  revert i. induction lines as [|l lines IH]; intros i; simpl.
  - split; [done|]. intros (_ & (l & Hl & _) & _). done.
  - case_bool_decide as Hl.
    + split.
      * intros [= <-]. rewrite Nat.sub_diag. split; [lia|]. split; [by exists l|]. lia.
      * intros (Hle & (l' & Hl' & Hs) & Hfirst).
        destruct (e - i)%nat as [|n] eqn:En; [f_equal; lia|].
        exfalso. apply (Hfirst 0%nat l); [lia|done|done].
    + rewrite IH. split.
      * intros (Hle & (l' & Hl' & Hs) & Hfirst).
        split; [lia|]. replace (e - i)%nat with (S (e - S i)) by lia.
        split; [by exists l'|].
        intros [|j] l0 Hj Hl0; simpl in Hl0; [by simplify_eq|].
        apply (Hfirst j); [lia|done].
      * intros (Hle & (l' & Hl' & Hs) & Hfirst).
        destruct (e - i)%nat as [|n] eqn:En; [by simplify_eq/=|].
        replace (e - S i)%nat with n by lia. simpl in Hl'.
        split; [lia|]. split; [by exists l'|].
        intros j l0 Hj Hl0. apply (Hfirst (S j)); [lia|done].
Qed.

Lemma startswith_spec p s : startswith p s = true <-> exists r, s = p ++ r.
Proof.
  revert s. induction p as [|a p IH]; intros s.
  - split; [by exists s|done].
  - destruct s as [|b s]; simpl.
    + split; [done|by intros [r ?]].
    + rewrite andb_true_iff, N.eqb_eq, IH. split.
      * intros [-> [r ->]]. by exists r.
      * intros [r [= -> ->]]. split; [done|by exists r].
Qed.

Lemma has_frontmatter_inv content :
  has_frontmatter content = true <-> exists r, content = py "---" ++ nl :: r.
Proof.
  unfold has_frontmatter. rewrite startswith_spec.
  split; intros [r ->]; exists r; by rewrite <- app_assoc.
Qed.

Lemma split_frontmatter r : split nl (py "---" ++ nl :: r) = py "---" :: split nl r.
Proof. unfold split. by rewrite split_on_app. Qed.

Lemma closes_at_find_end lines e :
  closes_at lines e <-> find_end (drop 1 lines) 1 = Some e.
Proof.
  rewrite find_end_some. unfold closes_at.
  split; intros (He & (l & Hl & Hs) & Hfirst); (split; [done|]).
  - split.
    + exists l. rewrite lookup_drop. by replace (1 + (e - 1))%nat with e by lia.
    + intros j l' Hj Hl'. rewrite lookup_drop in Hl'. apply (Hfirst (1 + j)%nat); [lia|done].
  - split.
    + exists l. rewrite lookup_drop in Hl. by replace (1 + (e - 1))%nat with e in Hl by lia.
    + intros j l' Hj Hl'. apply (Hfirst (j - 1)%nat); [lia|].
      rewrite lookup_drop. by replace (1 + (j - 1))%nat with j by lia.
Qed.

Lemma extract_frontmatter_closed content e :
  has_frontmatter content = true -> closes_at (split nl content) e ->
  extract_frontmatter content =
    (join [nl] (slice 1 e (split nl content)),
     join [nl] (drop (e + 1) (split nl content))).
Proof.
  intros Hf Hc. unfold extract_frontmatter. rewrite Hf. simpl.
  apply closes_at_find_end in Hc. by rewrite Hc.
Qed.

Lemma extract_frontmatter_unclosed content :
  (forall e, ~ closes_at (split nl content) e) ->
  extract_frontmatter content = ([], content).
Proof.
  intros Hc. unfold extract_frontmatter. destruct (has_frontmatter content); [|done]. simpl.
  destruct (find_end _ _) as [e|] eqn:E; [|done].
  apply closes_at_find_end in E. by apply Hc in E.
Qed.

(** C6, as stated, fails: the line of three dashes between blanks closes
    the block, where the specification's reading goes on to the bare
    [---] two lines below. *)
Lemma padded_delimiter_closes :
  let content := doc ["---"; "foo: bar"; "  ---  "; "body"; "---"; "rest"]%string in
  extract_frontmatter content = (py "foo: bar", doc ["body"; "---"; "rest"]%string)
  /\ Spec.extract_frontmatter content
     = (doc ["foo: bar"; "  ---  "; "body"]%string, py "rest")
  /\ extract_frontmatter content <> Spec.extract_frontmatter content.
Proof. by vm_compute. Qed.

(** C6 (amended): for every document beginning with the opening delimiter,
    the closing delimiter is the first later line that is [---] after
    stripping; a line of [---] between white space closes the block.  The
    frontmatter is the lines between the delimiters and the body is what
    follows the closing one. *)
Theorem closing_delimiter_is_first_stripped_match content e a b :
  let lines := split nl content in
  has_frontmatter content = true ->
  (1 <= e)%nat ->
  lines !! e = Some (a ++ py "---" ++ b) ->
  Forall (fun c => isspace c = true) a ->
  Forall (fun c => isspace c = true) b ->
  (forall j l, (1 <= j < e)%nat -> lines !! j = Some l -> strip l <> py "---") ->
  extract_frontmatter content =
    (join [nl] (slice 1 e lines), join [nl] (drop (e + 1) lines)).
Proof.
  intros lines Hf He Hl Ha Hb Hfirst.
  apply extract_frontmatter_closed; [done|].
  split; [done|]. split; [|done].
  eexists. split; [exact Hl|]. by apply strip_delimiter.
Qed.

Lemma closing_delimiter_witness :
  extract_frontmatter (doc ["---"; "foo: bar"; "  ---  "; "body"]%string)
  = (py "foo: bar", py "body").
Proof.
  apply (closing_delimiter_is_first_stripped_match
           (doc ["---"; "foo: bar"; "  ---  "; "body"]%string) 2 (py "  ") (py "  ")).
  - reflexivity.
  - lia.
  - reflexivity.
  - repeat constructor.
  - repeat constructor.
  - intros j l Hj Hl. assert (j = 1%nat) as -> by lia.
    vm_compute in Hl. injection Hl as <-. by vm_compute.
Defined.

(** C10, as stated, fails: when the document ends with the closing
    delimiter, without a newline after it, putting the parts together adds
    one. *)
Lemma roundtrip_fails_at_final_delimiter :
  let content := doc ["---"; "a: b"; "---"]%string in
  has_frontmatter content = true
  /\ closes_at (split nl content) 2
  /\ split nl content !! 2%nat = Some (py "---")
  /\ py "---" ++ [nl] ++ (extract_frontmatter content).1 ++ [nl] ++ py "---"
       ++ [nl] ++ (extract_frontmatter content).2 <> content.
Proof.
  split; [reflexivity|]. split.
  - split; [lia|]. split; [by eexists|].
    intros j l Hj Hl. assert (j = 1%nat) as -> by lia.
    vm_compute in Hl. injection Hl as <-. by vm_compute.
  - split; [reflexivity|]. by vm_compute.
Qed.

(** C10 (amended): for every document that starts with the opening
    delimiter, whose closing delimiter is exactly [---], with at least one
    line between the two delimiters and a newline after the closing one,
    the opening delimiter, the frontmatter, the closing delimiter and the
    body put together are the document. *)
Theorem frontmatter_roundtrip content e :
  let lines := split nl content in
  has_frontmatter content = true ->
  closes_at lines e ->
  lines !! e = Some (py "---") ->
  (2 <= e)%nat ->
  (S e < length lines)%nat ->
  py "---" ++ [nl] ++ (extract_frontmatter content).1 ++ [nl] ++ py "---"
    ++ [nl] ++ (extract_frontmatter content).2 = content.
Proof.
  intros lines Hf Hc Hl He Hlen.
  rewrite (extract_frontmatter_closed content e) by done. cbn [fst snd].
  fold lines.
  apply has_frontmatter_inv in Hf as [r Hr].
  assert (lines = py "---" :: split nl r) as Hlines
    by (unfold lines; rewrite Hr; apply split_frontmatter).
  etrans; [|apply (join_split nl content)]. fold lines.
  clearbody lines. clear Hr Hc.
  etrans; [|apply (f_equal (join [nl]) (take_drop_middle lines e _ Hl))].
  unfold slice. replace (e + 1)%nat with (S e) by lia.
  assert (take e lines = py "---" :: drop 1 (take e lines)) as Htake.
  { rewrite Hlines. destruct e as [|e']; [lia|]. simpl. by rewrite drop_0. }
  assert (drop 1 (take e lines) <> []) as Hmid.
  { intros Hnil. apply (f_equal length) in Hnil.
    rewrite length_drop, length_take in Hnil. simpl in Hnil. lia. }
  assert (drop (S e) lines <> []) as Hbody.
  { intros Hnil. apply (f_equal length) in Hnil. rewrite length_drop in Hnil.
    simpl in Hnil. lia. }
  rewrite Htake at 2.
  change ((py "---" :: drop 1 (take e lines)) ++ py "---" :: drop (S e) lines)
    with ([py "---"] ++ (drop 1 (take e lines) ++ [py "---"] ++ drop (S e) lines)).
  rewrite join_app; [|done|by destruct (drop 1 (take e lines))].
  rewrite join_app; [|done|done].
  rewrite join_app; [|done|done].
  reflexivity.
Qed.

Lemma frontmatter_roundtrip_witness :
  let content := doc ["---"; "a: b"; "---"; "text"]%string in
  py "---" ++ [nl] ++ (extract_frontmatter content).1 ++ [nl] ++ py "---"
    ++ [nl] ++ (extract_frontmatter content).2 = content.
Proof.
  apply (frontmatter_roundtrip (doc ["---"; "a: b"; "---"; "text"]%string) 2).
  - reflexivity.
  - split; [lia|]. split; [by eexists|].
    intros j l Hj Hl. assert (j = 1%nat) as -> by lia.
    vm_compute in Hl. injection Hl as <-. by vm_compute.
  - reflexivity.
  - lia.
  - vm_compute. lia.
Defined.

(** ** The title made from the path *)

Lemma join_cons_cons sep x w ws : join sep ((x :: w) :: ws) = x :: join sep (w :: ws).
Proof. by destruct ws. Qed.

Lemma join_nil_cons sep w ws : join sep ([] :: w :: ws) = sep ++ join sep (w :: ws).
Proof. done. Qed.

Lemma render_tokens b :
  match split_on is_separator b with
  | w :: ws =>
      join (py " ") (capitalize w :: map capitalize ws) = render true b
      /\ join (py " ") (map lower w :: map capitalize ws) = render false b
  | [] => False
  end.
Proof.
  induction b as [|c b IH]; [done|].
  cbn [split_on render]. destruct (split_on is_separator b) as [|w ws]; [done|].
  destruct IH as [IH1 IH2]. destruct (is_separator c); cbv beta iota.
  - change (map capitalize (w :: ws)) with (capitalize w :: map capitalize ws).
    change (capitalize []) with (@nil char). change (map lower []) with (@nil char).
    by rewrite join_nil_cons, IH1.
  - change (capitalize (c :: w)) with (upper c :: map lower w).
    change (map lower (c :: w)) with (lower c :: map lower w).
    by rewrite !join_cons_cons, IH2.
Qed.

(** The title is the base name read character by character. *)
Lemma generate_title_render p :
  generate_title_from_path p = render true (title_basename p).
Proof.
  unfold generate_title_from_path.
  pose proof (render_tokens (title_basename p)) as H.
  destruct (split_on is_separator (title_basename p)) as [|w ws]; [done|].
  apply H.
Qed.

Lemma length_render start b : length (render start b) = length b.
Proof. revert start. induction b as [|c b IH]; intros start; simpl; [done|]. by rewrite IH. Qed.

Lemma lookup_render b : forall start i c,
  b !! i = Some c ->
  render start b !! i =
    Some (if is_separator c then ch " "
          else if match i with O => start | S _ => token_start b i end
               then upper c else lower c).
Proof.
  induction b as [|c0 b IH]; intros start i c Hi; [done|].
  destruct i as [|j]; cbn [render].
  - by injection Hi as ->.
  - change (render (is_separator c0) b !! j = Some
      (if is_separator c then ch " "
       else if token_start (c0 :: b) (S j) then upper c else lower c)).
    change ((c0 :: b) !! S j) with (b !! j) in Hi.
    rewrite (IH _ _ _ Hi). destruct j as [|k]; [done|].
    done.
Qed.

(** C3, as stated, fails: the capital inside [myCool] is put in lower
    case. *)
Lemma interior_capital_lowered :
  generate_title_from_path [py "docs"; py "myCool-page.md"] = py "Mycool Page"
  /\ join (py " ") (map Spec.render_token (split_on is_separator (py "myCool-page")))
     = py "MyCool Page"
  /\ generate_title_from_path [py "docs"; py "myCool-page.md"]
     <> join (py " ") (map Spec.render_token (split_on is_separator (py "myCool-page"))).
Proof. by vm_compute. Qed.

(** C3 (amended): for every file path with an ASCII base name, each token
    is rendered with its first character in upper case and the others in
    lower case: a character of the base name that is not a separator
    appears at its place in the title, in upper case where a token starts
    and in lower case elsewhere, so the capitals inside a token are put in
    lower case. *)
Theorem title_letters_capitalized p i c :
  Forall (fun x => is_ascii x = true) (title_basename p) ->
  title_basename p !! i = Some c ->
  is_separator c = false ->
  generate_title_from_path p !! i
  = Some (if token_start (title_basename p) i then upper c else lower c).
Proof.
  intros _ Hi Hc. rewrite generate_title_render, (lookup_render _ _ _ _ Hi), Hc.
  by destruct i.
Qed.

Lemma title_letters_capitalized_witness :
  generate_title_from_path [py "docs"; py "myCool-page.md"] !! 2%nat
  = Some (ch "c").
Proof.
  apply (title_letters_capitalized [py "docs"; py "myCool-page.md"] 2 (ch "C")).
  - vm_compute. repeat constructor.
  - reflexivity.
  - reflexivity.
Defined.

(** C4, as stated, fails: the empty token between two separators is kept
    and the title has two spaces in a row. *)
Lemma empty_token_kept :
  generate_title_from_path [py "docs"; py "my--cool_page.md"] = py "My  Cool Page"
  /\ Spec.title_of_basename (py "my--cool_page") = py "My Cool Page"
  /\ generate_title_from_path [py "docs"; py "my--cool_page.md"]
     <> Spec.title_of_basename (py "my--cool_page").
Proof. by vm_compute. Qed.

(** C4 (amended): for every file path with an ASCII base name, the empty
    tokens are kept: every separator of the base name becomes one space at
    its place in the title, which is as long as the base name; separators
    in a row, in front or at the end give spaces in a row, in front or at
    the end. *)
Theorem title_keeps_empty_tokens p :
  Forall (fun x => is_ascii x = true) (title_basename p) ->
  length (generate_title_from_path p) = length (title_basename p)
  /\ forall i c,
       title_basename p !! i = Some c -> is_separator c = true ->
       generate_title_from_path p !! i = Some (ch " ").
Proof.
  intros _. rewrite generate_title_render. split; [apply length_render|].
  intros i c Hi Hc. by rewrite (lookup_render _ _ _ _ Hi), Hc.
Qed.

Lemma title_keeps_empty_tokens_witness :
  let p := [py "docs"; py "my--page.md"] in
  length (generate_title_from_path p) = length (title_basename p)
  /\ forall i c,
       title_basename p !! i = Some c -> is_separator c = true ->
       generate_title_from_path p !! i = Some (ch " ").
Proof.
  apply (title_keeps_empty_tokens [py "docs"; py "my--page.md"]).
  vm_compute. repeat constructor.
Defined.

(** ** Running the title inserter on one file *)

Lemma add_title_to_file_run p w content :
  files w !! p = Some (Text content) ->
  add_title_to_file p w =
    match re_search true title_re (extract_frontmatter content).1 with
    | Some _ => (Ok tt, World (files w) (output w ++ [Skipping p]))
    | None =>
        let title := resolve_title p content in
        (Ok tt,
         World (<[p := Text (new_content title (extract_frontmatter content).1
                               (extract_frontmatter content).2)]> (files w))
               (output w ++ [AddedTitle p title]))
    end.
Proof.
  intros Hp. unfold add_title_to_file, io_bind, read_text. rewrite Hp.
  destruct (extract_frontmatter content) as [frontmatter body]. cbn [fst snd].
  by destruct (re_search true title_re frontmatter).
Qed.

Lemma first_h1_found lines i line m :
  lines !! i = Some line ->
  re_match false h1_re line = Some m ->
  (forall j l, (j < i)%nat -> lines !! j = Some l -> re_match false h1_re l = None) ->
  first_h1 lines = Some (strip (group m)).
Proof.
  revert i. induction lines as [|l lines IH]; intros i Hi Hm Hfirst; [done|].
  destruct i as [|i]; cbn [first_h1].
  - injection Hi as ->. by rewrite Hm.
  - rewrite (Hfirst 0%nat l) by (done || lia).
    apply (IH i); [done|done|].
    intros j l' Hj Hl'. apply (Hfirst (S j)); [lia|done].
Qed.

(** C5, as stated, fails: the comment line of the frontmatter looks like
    an H1 and gives the title, not the heading of the body. *)
Lemma frontmatter_line_taken_as_h1 :
  let p := [py "docs"; py "page.md"] in
  let content :=
    doc ["---"; "# c"; "foo: bar"; "---"; "# Hello World"; ""; "text"]%string in
  extract_h1 (extract_frontmatter content).2 = Some (py "Hello World")
  /\ files (add_title_to_file p (World {[p := Text content]} [])).2 !! p
     = Some (Text (doc ["---"; "title: c"; "# c"; "foo: bar"; "---";
                        "# Hello World"; ""; "text"]%string)).
Proof. by vm_compute. Qed.

(** C5 (amended): for every document whose frontmatter has no [title:]
    line, the title inserted is the stripped text of the first line of the
    whole document that matches the H1 pattern, frontmatter lines
    included, when that text is not empty. *)
Theorem inserted_title_is_first_h1_of_document p w content i line m :
  files w !! p = Some (Text content) ->
  re_search true title_re (extract_frontmatter content).1 = None ->
  split nl content !! i = Some line ->
  re_match false h1_re line = Some m ->
  (forall j l, (j < i)%nat -> split nl content !! j = Some l ->
               re_match false h1_re l = None) ->
  strip (group m) <> [] ->
  add_title_to_file p w =
    (Ok tt,
     World (<[p := Text (new_content (strip (group m))
                           (extract_frontmatter content).1
                           (extract_frontmatter content).2)]> (files w))
           (output w ++ [AddedTitle p (strip (group m))])).
Proof.
  intros Hp Hnotitle Hi Hm Hfirst Hne.
  rewrite (add_title_to_file_run p w content Hp), Hnotitle. cbv zeta.
  assert (resolve_title p content = strip (group m)) as ->; [|done].
  unfold resolve_title, extract_h1.
  rewrite (first_h1_found _ i line m Hi Hm Hfirst).
  by destruct (strip (group m)).
Qed.

Lemma inserted_title_witness :
  let p := [py "docs"; py "page.md"] in
  let content := doc ["---"; "# c"; "foo: bar"; "---"; "# Hello"]%string in
  let w := World {[p := Text content]} [] in
  let m := MState (Some (ch "c")) [] (Some (py "c")) in
  add_title_to_file p w =
    (Ok tt,
     World (<[p := Text (new_content (strip (group m))
                           (extract_frontmatter content).1
                           (extract_frontmatter content).2)]> (files w))
           (output w ++ [AddedTitle p (strip (group m))])).
Proof.
  intros p content w m.
  apply (inserted_title_is_first_h1_of_document p
           (World {[p := Text content]} []) content 1 (py "# c") m).
  - reflexivity.
  - reflexivity.
  - reflexivity.
  - reflexivity.
  - intros j l Hj Hl. assert (j = 0%nat) as -> by lia.
    vm_compute in Hl. injection Hl as <-. reflexivity.
  - by vm_compute.
Defined.

(** C7, as stated, fails: the document with a dangling delimiter is
    rewritten. *)
Lemma dangling_delimiter_rewritten :
  let p := [py "docs"; py "page.md"] in
  let content := doc ["---"; "foo: bar"; "text"]%string in
  has_frontmatter content = true
  /\ find_end (drop 1 (split nl content)) 1 = None
  /\ files (add_title_to_file p (World {[p := Text content]} [])).2 !! p
     = Some (Text (doc ["---"; "title: Page"; "---"; "---"; "foo: bar"; "text"]%string))
  /\ files (add_title_to_file p (World {[p := Text content]} [])).2 !! p
     <> Some (Text content).
Proof. by vm_compute. Qed.

(** C7 (amended): for every document that opens with the delimiter and has
    no closing delimiter, the whole document is taken as the body: the
    Title Inserter writes a new frontmatter block, holding the title line
    only, in front of the document, whose dangling delimiter stays as the
    first line of the body. *)
Theorem unclosed_frontmatter_gets_new_block p w content :
  files w !! p = Some (Text content) ->
  has_frontmatter content = true ->
  (forall j l, (1 <= j)%nat -> split nl content !! j = Some l -> strip l <> py "---") ->
  add_title_to_file p w =
    (Ok tt,
     World (<[p := Text (py "---" ++ [nl] ++ py "title: " ++ resolve_title p content
                           ++ [nl] ++ py "---" ++ [nl] ++ content)]> (files w))
           (output w ++ [AddedTitle p (resolve_title p content)])).
Proof.
  intros Hp Hf Hopen.
  rewrite (add_title_to_file_run p w content Hp).
  rewrite extract_frontmatter_unclosed.
  - cbn [fst snd]. change (re_search true title_re []) with (@None mstate).
    cbv zeta. unfold new_content.
    apply has_frontmatter_inv in Hf as [r ->].
    change (lstrip (py "---" ++ nl :: r)) with (py "---" ++ nl :: r).
    by rewrite <- !app_assoc.
  - intros e (He & (l & Hl & Hs) & _). by apply (Hopen e l).
Qed.

Lemma unclosed_frontmatter_witness :
  let p := [py "docs"; py "page.md"] in
  let content := doc ["---"; "foo: bar"]%string in
  let w := World {[p := Text content]} [] in
  add_title_to_file p w =
    (Ok tt,
     World (<[p := Text (py "---" ++ [nl] ++ py "title: " ++ resolve_title p content
                           ++ [nl] ++ py "---" ++ [nl] ++ content)]> (files w))
           (output w ++ [AddedTitle p (resolve_title p content)])).
Proof.
  intros p content w.
  apply (unclosed_frontmatter_gets_new_block p (World {[p := Text content]} []) content).
  - reflexivity.
  - reflexivity.
  - intros j l Hj Hl. destruct j as [|[|j]]; [lia| |done].
    vm_compute in Hl. injection Hl as <-. by vm_compute.
Defined.

(** ** Idempotence of the title inserter *)

Lemma search_title_prefix rest : re_search true title_re (py "title:" ++ rest) <> None.
Proof. by vm_compute. Qed.

Lemma join_head sep w ws : exists rest, join sep (w :: ws) = w ++ rest.
Proof. destruct ws as [|w' ws]; [exists []; by rewrite app_nil_r|]. by eexists. Qed.

(** What the inserter writes has a frontmatter block that starts with the
    title line. *)
Lemma new_content_frontmatter title frontmatter body :
  exists rest,
    (extract_frontmatter (new_content title frontmatter body)).1 = py "title:" ++ rest.
Proof.
  assert (exists x, new_content title frontmatter body
            = py "---" ++ nl :: (py "title: " ++ (x ++ nl :: (py "---" ++ nl :: lstrip body))))
    as [x Hx].
  { unfold new_content. destruct frontmatter as [|c fm].
    - exists title. by rewrite <- !app_assoc.
    - exists (title ++ [nl] ++ c :: fm). by rewrite <- !app_assoc. }
  rewrite Hx. clear Hx. set (content := py "---" ++ nl :: _).
  assert (has_frontmatter content = true) as Hf by (apply has_frontmatter_inv; by eexists).
  assert (exists w ws, split nl content = py "---" :: (py "title: " ++ w) :: ws
                       /\ py "---" ∈ ws) as (w & ws & Hlines & Hin).
  { unfold content. rewrite split_frontmatter. unfold split.
    destruct (split_on_prefix (N.eqb nl) (py "title: ")
                (x ++ nl :: (py "---" ++ nl :: lstrip body))) as (w & ws & E1 & E2).
    { by repeat constructor. }
    exists w, ws. rewrite E2. split; [done|].
    rewrite split_on_app in E1 by done.
    change (py "---" ++ nl :: lstrip body) with ([] ++ py "---" ++ nl :: lstrip body) in E1.
    rewrite (app_assoc []) in E1. rewrite split_on_app in E1 by done.
    destruct (split_on (N.eqb nl) x) as [|w0 ws0] eqn:Ex; [by apply split_on_nonempty in Ex|].
    injection E1 as _ <-. apply elem_of_app. right.
    apply elem_of_cons. by left. }
  destruct (find_end (drop 1 (split nl content)) 1) as [e|] eqn:Hend.
  - apply closes_at_find_end in Hend as Hclose.
    rewrite (extract_frontmatter_closed content e Hf Hclose). cbn [fst].
    destruct Hclose as (He & (l & Hl & Hs) & _).
    assert (e <> 1%nat) as He1.
    { intros ->. rewrite Hlines in Hl. injection Hl as <-.
      change (py "title: " ++ w) with (ch "t" :: (py "itle: " ++ w)) in Hs.
      by rewrite strip_cons_other in Hs. }
    rewrite Hlines. unfold slice.
    destruct e as [|[|e]]; [lia|done|].
    change (drop 1 (take (S (S e)) (py "---" :: (py "title: " ++ w) :: ws)))
      with ((py "title: " ++ w) :: take e ws).
    destruct (join_head [nl] (py "title: " ++ w) (take e ws)) as [rest ->].
    exists (ch " " :: w ++ rest). by rewrite <- !app_assoc.
  - exfalso. apply find_end_none in Hend. rewrite Hlines in Hend.
    rewrite Forall_forall in Hend. apply (Hend (py "---")); [|done].
    change (drop 1 (py "---" :: (py "title: " ++ w) :: ws)) with ((py "title: " ++ w) :: ws).
    by right.
Qed.

(** C8: the Title Inserter is idempotent.  For every document, a second
    run on the result of a first run takes the branch of the title that
    already exists: it writes nothing, so the content stays as the first
    run left it, and it prints that it skips the file. *)
Theorem inserter_idempotent p w content :
  files w !! p = Some (Text content) ->
  add_title_to_file p (add_title_to_file p w).2
  = (Ok tt,
     World (files (add_title_to_file p w).2)
           (output (add_title_to_file p w).2 ++ [Skipping p])).
Proof.
  intros Hp. rewrite (add_title_to_file_run p w content Hp).
  destruct (re_search true title_re (extract_frontmatter content).1) as [m|] eqn:Hsearch.
  - cbn [snd files output].
    rewrite (add_title_to_file_run p _ content) by done.
    by rewrite Hsearch.
  - cbv zeta. cbn [snd files output].
    rewrite (add_title_to_file_run p _ _ (lookup_insert_eq _ _ _)).
    destruct (new_content_frontmatter (resolve_title p content)
                (extract_frontmatter content).1 (extract_frontmatter content).2)
      as [rest ->].
    pose proof (search_title_prefix rest).
    by destruct (re_search true title_re (py "title:" ++ rest)).
Qed.

Lemma inserter_idempotent_witness :
  let p := [py "docs"; py "page.md"] in
  let w := World {[p := Text (doc ["# Hello"; "text"]%string)]} [] in
  add_title_to_file p (add_title_to_file p w).2
  = (Ok tt,
     World (files (add_title_to_file p w).2)
           (output (add_title_to_file p w).2 ++ [Skipping p])).
Proof.
  intros p w. apply (inserter_idempotent p w (doc ["# Hello"; "text"]%string)).
  reflexivity.
Defined.

(** ** Batches *)

Lemma read_text_fails p w :
  files w !! p = None \/ files w !! p = Some Undecodable ->
  exists e, read_text p w = (Raise e, w).
Proof. unfold read_text. intros [-> | ->]; by eexists. Qed.

Lemma add_title_to_file_fails p w e :
  read_text p w = (Raise e, w) -> add_title_to_file p w = (Raise e, w).
Proof. intros Hr. unfold add_title_to_file, io_bind. by rewrite Hr. Qed.

Lemma fix_title_in_file_fails p w e :
  read_text p w = (Raise e, w) -> FixTitleQuotes.fix_title_in_file p w = (Raise e, w).
Proof. intros Hr. unfold FixTitleQuotes.fix_title_in_file, io_bind. by rewrite Hr. Qed.

(** A loop that got through the first files goes on with the others from
    the world it reached. *)
Lemma process_app pre others : forall k w n w1,
  process pre k w = (Ok n, w1) ->
  process (pre ++ others) k w = process others n w1.
Proof.
  induction pre as [|f pre IH]; intros k w n w1 Hpre; cbn [process app] in *.
  - unfold io_ret in Hpre. by injection Hpre as -> ->.
  - destruct (excluded f); [by apply IH|].
    unfold io_bind in *. destruct (add_title_to_file f w) as [[[]|e] w']; [|done].
    by apply IH.
Qed.

Lemma quoter_process_app pre others : forall w w1,
  FixTitleQuotes.process pre w = (Ok tt, w1) ->
  FixTitleQuotes.process (pre ++ others) w = FixTitleQuotes.process others w1.
Proof.
  induction pre as [|f pre IH]; intros w w1 Hpre;
    cbn [FixTitleQuotes.process app] in *.
  - unfold io_ret in Hpre. by injection Hpre as ->.
  - unfold io_bind in *.
    destruct (FixTitleQuotes.fix_title_in_file f w) as [[[]|e] w']; [|done].
    by apply IH.
Qed.

(** C2, as stated, fails: a missing file at the head of the batch ends
    both scripts with the exception, and the file after it, which a run on
    its own would rewrite, is left as it was. *)
Lemma failure_aborts_batch :
  let bad := [py "docs"; py "gone.md"] in
  let good := [py "docs"; py "page.md"] in
  let w := World {[good := Text (py "title: a: b")]} [] in
  AddMissingTitles.main [bad; good] w = (Raise FileNotFoundError, w)
  /\ files (AddMissingTitles.main [good] w).2 !! good
     = Some (Text (doc ["---"; "title: Page"; "---"; "title: a: b"]%string))
  /\ FixTitleQuotes.main [bad; good] w = (Raise FileNotFoundError, w)
  /\ files (FixTitleQuotes.main [good] w).2 !! good
     = Some (Text (py "title: " ++ [dquote] ++ py "a: b" ++ [dquote])).
Proof. by vm_compute. Qed.

(** ** The matcher finds runs of the pattern *)

Lemma eat_sound p k s m :
  eat p k s = Some m ->
  exists c s', rest s = c :: s' /\ p c = true /\ k (MState (Some c) s' (group1 s)) = Some m.
Proof.
  unfold eat. destruct (rest s) as [|c s']; [done|].
  destruct (p c) eqn:Hc; [|done]. intros Hk. by exists c, s'.
Qed.

Lemma rmatch_sound ml r : forall k s m,
  rmatch ml r k s = Some m -> exists s', steps ml r s s' /\ k s' = Some m.
Proof.
  induction r as [| | |c|p|r1 IH1 r2 IH2|r IH|r IH]; intros k s m Hm; cbn [rmatch] in Hm.
  - exists s. split; [constructor|done].
  - destruct (at_bol ml s) eqn:Hb; [|done]. exists s. split; [by constructor|done].
  - destruct (at_eol ml s) eqn:Hb; [|done]. exists s. split; [by constructor|done].
  - apply eat_sound in Hm as (x & s' & Hs & Hx & Hk). apply N.eqb_eq in Hx as <-.
    eexists. split; [by constructor|done].
  - apply eat_sound in Hm as (x & s' & Hs & Hx & Hk).
    eexists. split; [by econstructor|done].
  - apply IH1 in Hm as (s1 & H1 & Hm). apply IH2 in Hm as (s2 & H2 & Hm).
    exists s2. split; [by econstructor|done].
  - remember (length (rest s)) as fuel eqn:Hf. clear Hf. revert s Hm.
    induction fuel as [|fuel IHf]; intros s Hm.
    + exists s. split; [constructor|done].
    + destruct (rmatch ml r _ s) as [m'|] eqn:Hr.
      * injection Hm as ->. apply IH in Hr as (s1 & H1 & Hr).
        case_bool_decide; [|done].
        apply IHf in Hr as (s2 & H2 & Hk).
        exists s2. split; [by econstructor|done].
      * exists s. split; [constructor|done].
  - apply IH in Hm as (s1 & H1 & Hm). eexists. split; [by constructor|done].
Qed.

(** A run reads a prefix of the text. *)
Lemma steps_reads ml r s s' : steps ml r s s' -> exists a, rest s = a ++ rest s'.
Proof.
  induction 1 as [s|s _|s _|c s s' Hs|p c s s' Hs _|r1 r2 s s1 s2 _ [a Ha] _ [b Hb]
                 |r s|r s s1 s2 _ [a Ha] _ [b Hb]|r s s1 _ IH];
    try (by exists []); try (by exists [c]); try done.
  - exists (a ++ b). by rewrite Ha, Hb, app_assoc.
  - exists (a ++ b). by rewrite Ha, Hb, app_assoc.
Qed.

Lemma consumed_prefix s s' a : rest s = a ++ rest s' -> consumed s s' = a.
Proof.
  intros Ha. unfold consumed. rewrite Ha, length_app.
  replace (length a + length (rest s') - length (rest s'))%nat with (length a) by lia.
  by rewrite take_app_length.
Qed.

Lemma steps_cat_inv ml r1 r2 s s' :
  steps ml (Cat r1 r2) s s' -> exists s1, steps ml r1 s s1 /\ steps ml r2 s1 s'.
Proof. inversion 1; subst. by eexists. Qed.

Lemma steps_eps_inv ml s s' : steps ml Eps s s' -> s' = s.
Proof. by inversion 1. Qed.

Lemma steps_bol_inv ml s s' : steps ml Bol s s' -> s' = s.
Proof. by inversion 1. Qed.

Lemma steps_eol_inv ml s s' : steps ml Eol s s' -> s' = s /\ at_eol ml s = true.
Proof. by inversion 1. Qed.

Lemma steps_chr_inv ml c s s' :
  steps ml (Chr c) s s' -> rest s = c :: rest s' /\ group1 s' = group1 s.
Proof. by inversion 1. Qed.

Lemma steps_cls_inv ml p s s' :
  steps ml (Cls p) s s' ->
  exists c, rest s = c :: rest s' /\ p c = true /\ group1 s' = group1 s.
Proof. inversion 1; subst. by eexists. Qed.

Lemma steps_star_cls_inv ml p s s' :
  steps ml (Star (Cls p)) s s' ->
  exists a, rest s = a ++ rest s' /\ Forall (fun c => p c = true) a
            /\ group1 s' = group1 s.
Proof.
  intros H. remember (Star (Cls p)) as r eqn:Hr.
  induction H as [| | | | | |r s|r s s1 s2 H1 _ _ IH|]; try done.
  - by exists [].
  - injection Hr as ->. destruct (IH eq_refl) as (a & Ha & Hall & Hg).
    apply steps_cls_inv in H1 as (c & Hc & Hp & Hg1).
    exists (c :: a). rewrite Hc, Ha. split; [done|]. split; [by constructor|congruence].
Qed.

Lemma steps_plus_cls_inv ml p s s' :
  steps ml (Plus (Cls p)) s s' ->
  exists c a, rest s = c :: a ++ rest s' /\ Forall (fun c => p c = true) (c :: a)
              /\ group1 s' = group1 s.
Proof.
  intros H. apply steps_cat_inv in H as (s1 & H1 & H2).
  apply steps_cls_inv in H1 as (c & Hc & Hp & Hg1).
  apply steps_star_cls_inv in H2 as (a & Ha & Hall & Hg).
  exists c, a. rewrite Hc, Ha. split; [done|]. split; [by constructor|congruence].
Qed.

Lemma steps_lit_inv ml l : forall s s',
  steps ml (Lit l) s s' -> rest s = l ++ rest s' /\ group1 s' = group1 s.
Proof.
  induction l as [|c l IH]; intros s s' H.
  - apply steps_eps_inv in H. by subst.
  - apply steps_cat_inv in H as (s1 & H1 & H2).
    apply steps_chr_inv in H1 as [Hc Hg]. apply IH in H2 as [Hl Hg'].
    rewrite Hc, Hl. split; [done|congruence].
Qed.

Lemma at_eol_inv s : at_eol false s = true -> rest s = [] \/ rest s = [nl].
Proof.
  unfold at_eol. destruct (rest s) as [|c [|c' t]]; [by left| |done].
  intros Hc. apply N.eqb_eq in Hc as ->. by right.
Qed.

(** ** The title quoter *)

(** A line the first pattern matches ends with a character that is not a
    quote, maybe followed by a newline. *)
Lemma unquoted_re_inv line m :
  re_match false FixTitleQuotes.unquoted_re line = Some m ->
  exists a c tail,
    line = a ++ c :: tail /\ c <> dquote /\ c <> squote /\ (tail = [] \/ tail = [nl]).
Proof.
  intros Hm. apply rmatch_sound in Hm as (s' & H & _).
  apply steps_cat_inv in H as (s1 & H1 & H). apply steps_reads in H1 as [a1 E1].
  apply steps_cat_inv in H as (s2 & H2 & H). apply steps_reads in H2 as [a2 E2].
  apply steps_cat_inv in H as (s3 & H3 & H). apply steps_reads in H3 as [a3 E3].
  apply steps_cat_inv in H as (s4 & H4 & H). apply steps_reads in H4 as [a4 E4].
  apply steps_cat_inv in H as (s5 & H5 & H). apply steps_reads in H5 as [a5 E5].
  apply steps_cat_inv in H as (s6 & H6 & H). apply steps_reads in H6 as [a6 E6].
  apply steps_cat_inv in H as (s7 & H7 & H). apply steps_reads in H7 as [a7 E7].
  apply steps_cat_inv in H as (s8 & H8 & H).
  apply steps_cls_inv in H8 as (c & E8 & Hc & _).
  apply steps_cat_inv in H as (s9 & H9 & _).
  apply steps_eol_inv in H9 as [-> Heol]. apply at_eol_inv in Heol.
  exists (a1 ++ a2 ++ a3 ++ a4 ++ a5 ++ a6 ++ a7), c, (rest s8).
  cbn [rest] in E1. rewrite E1, E2, E3, E4, E5, E6, E7, E8, <- !app_assoc.
  split; [done|].
  apply negb_true_iff, bool_decide_eq_false in Hc.
  split; [|split; [|done]]; intros ->; apply Hc; unfold FixTitleQuotes.quotes.
  - by left.
  - right. by left.
Qed.

(** What the second pattern captures: the text after [title:] and some
    white space. *)
Lemma value_re_inv line m :
  re_match false FixTitleQuotes.value_re line = Some m ->
  exists ws tail,
    line = py "title:" ++ ws ++ group m ++ tail
    /\ ws <> [] /\ Forall (fun c => isspace c = true) ws
    /\ group m <> [] /\ Forall (fun c => (nl =? c) = false) (group m)
    /\ (tail = [] \/ tail = [nl]).
Proof.
  intros Hm. apply rmatch_sound in Hm as (s' & H & Hs'). injection Hs' as ->.
  apply steps_cat_inv in H as (s1 & H1 & H). apply steps_bol_inv in H1 as ->.
  apply steps_cat_inv in H as (s2 & H2 & H). apply steps_lit_inv in H2 as [E2 _].
  apply steps_cat_inv in H as (s3 & H3 & H).
  apply steps_plus_cls_inv in H3 as (c & ws & E3 & Hws & _).
  apply steps_cat_inv in H as (s4 & H4 & H).
  apply steps_cat_inv in H as (s5 & H5 & H).
  apply steps_eol_inv in H5 as [-> Heol]. apply steps_eps_inv in H as ->.
  inversion H4 as [| | | | | | | |r s s5 Hg]; subst. clear H4.
  apply steps_plus_cls_inv in Hg as (d & v & E4 & Hv & _).
  cbn [rest] in *. apply at_eol_inv in Heol. cbn [rest] in Heol.
  unfold group. cbn [group1 default].
  rewrite (consumed_prefix s3 s5 (d :: v)) by done.
  exists (c :: ws), (rest s5).
  rewrite E2, E3, E4. split; [done|].
  split; [done|]. split; [done|]. split; [done|]. split; [|done].
  eapply Forall_impl; [exact Hv|]. intros x Hx.
  apply negb_true_iff in Hx. by rewrite N.eqb_sym.
Qed.

Lemma last_snoc (a : list N) c : last (a ++ [c]) = Some c.
Proof. by rewrite last_snoc. Qed.

(** The shape of a line the loop quotes, and of the line it becomes. *)
Lemma quote_line_inv line line' :
  Forall (fun c => (nl =? c) = false) line ->
  FixTitleQuotes.quote_line line = Some line' ->
  exists ws value,
    ws <> [] /\ Forall (fun c => isspace c = true) ws
    /\ line = py "title:" ++ ws ++ value
    /\ line' = py "title: " ++ [dquote] ++ value ++ [dquote].
Proof.
  intros Hnl. unfold FixTitleQuotes.quote_line.
  destruct (re_match false FixTitleQuotes.unquoted_re line) as [m0|]; [|done].
  destruct (re_match false FixTitleQuotes.value_re line) as [m|] eqn:Hm; [|done].
  destruct (negb _); [|done]. intros [= <-].
  apply value_re_inv in Hm as (ws & tail & E & Hne & Hws & _ & _ & [-> | ->]).
  - exists ws, (group m). by rewrite app_nil_r in E.
  - exfalso. rewrite E, !Forall_app in Hnl. destruct Hnl as (_ & _ & _ & Hnl).
    by inversion Hnl.
Qed.

(** The line the loop wrote is not quoted again: it ends with a quote. *)
Lemma quote_line_quoted value :
  FixTitleQuotes.quote_line (py "title: " ++ [dquote] ++ value ++ [dquote]) = None.
Proof.
  unfold FixTitleQuotes.quote_line.
  destruct (re_match false FixTitleQuotes.unquoted_re _) as [m|] eqn:Hm; [|done].
  exfalso. apply unquoted_re_inv in Hm as (a & c & tail & E & Hd & Hs & Htail).
  apply (f_equal last) in E.
  rewrite !app_assoc, last_snoc in E.
  destruct Htail as [-> | ->].
  - rewrite last_snoc in E. by injection E.
  - change (a ++ [c; nl]) with (a ++ [c] ++ [nl]) in E.
    rewrite app_assoc, last_snoc in E. by injection E.
Qed.

Lemma quote_line_no_nl line line' :
  Forall (fun c => (nl =? c) = false) line ->
  FixTitleQuotes.quote_line line = Some line' ->
  Forall (fun c => (nl =? c) = false) line'.
Proof.
  intros Hnl Hq. destruct (quote_line_inv line line' Hnl Hq) as (ws & v & _ & _ & -> & ->).
  rewrite !Forall_app in Hnl. destruct Hnl as (_ & _ & Hv).
  rewrite !Forall_app. split; [by repeat constructor|]. split; [by repeat constructor|].
  split; [done|]. by repeat constructor.
Qed.

Lemma scan_none lines k :
  FixTitleQuotes.scan lines k = None
  <-> forall l, l ∈ lines -> FixTitleQuotes.quote_line l = None.
Proof.
  revert k. induction lines as [|l lines IH]; intros k; cbn [FixTitleQuotes.scan].
  - split; [|done]. intros _ l Hl. by apply elem_of_nil in Hl.
  - destruct (FixTitleQuotes.quote_line l) as [l'|] eqn:Hl.
    + split; [done|]. intros H. specialize (H l (list_elem_of_here _ _)). congruence.
    + rewrite IH. split.
      * intros H x Hx. apply elem_of_cons in Hx as [-> | Hx]; [done|by apply H].
      * intros H x Hx. apply H. by right.
Qed.

Lemma scan_first lines i line line' : forall k,
  lines !! i = Some line ->
  FixTitleQuotes.quote_line line = Some line' ->
  (forall j l, (j < i)%nat -> lines !! j = Some l -> FixTitleQuotes.quote_line l = None) ->
  FixTitleQuotes.scan lines k = Some ((k + i)%nat, line').
Proof.
  revert i. induction lines as [|l lines IH]; intros i k Hi Hq Hfirst; [done|].
  cbn [FixTitleQuotes.scan]. destruct i as [|i].
  - injection Hi as ->. rewrite Hq. by rewrite Nat.add_0_r.
  - rewrite (Hfirst 0%nat l) by (done || lia).
    rewrite (IH i (S k)); [f_equal; f_equal; lia|done|done|].
    intros j l0 Hj Hl0. apply (Hfirst (S j)); [lia|done].
Qed.

Lemma scan_some lines k i line' :
  FixTitleQuotes.scan lines k = Some (i, line') ->
  exists line, lines !! (i - k)%nat = Some line
    /\ (k <= i)%nat
    /\ FixTitleQuotes.quote_line line = Some line'
    /\ (forall j l, (j < i - k)%nat -> lines !! j = Some l ->
                    FixTitleQuotes.quote_line l = None).
Proof.
  revert k. induction lines as [|l lines IH]; intros k; cbn [FixTitleQuotes.scan]; [done|].
  destruct (FixTitleQuotes.quote_line l) as [l'|] eqn:Hl.
  - intros [= <- <-]. exists l. rewrite Nat.sub_diag. split; [done|]. split; [lia|].
    split; [done|]. lia.
  - intros H. apply IH in H as (line & Hi & Hk & Hq & Hfirst).
    exists line. replace (i - k)%nat with (S (i - S k)) by lia.
    split; [done|]. split; [lia|]. split; [done|].
    intros [|j] l0 Hj Hl0; [by injection Hl0 as <-|].
    apply (Hfirst j); [lia|done].
Qed.

Lemma fix_title_in_file_run p w content :
  files w !! p = Some (Text content) ->
  FixTitleQuotes.fix_title_in_file p w =
    match FixTitleQuotes.scan (split nl content) 0 with
    | Some (i, line') =>
        (Ok tt,
         World (<[p := Text (join [nl] (<[i := line']> (split nl content)))]> (files w))
               (output w ++ [QuotedTitle p]))
    | None => (Ok tt, w)
    end.
Proof.
  intros Hp. unfold FixTitleQuotes.fix_title_in_file, io_bind, read_text. rewrite Hp.
  by destruct (FixTitleQuotes.scan (split nl content) 0) as [[i line']|].
Qed.

Lemma split_no_nl content :
  Forall (Forall (fun c => (nl =? c) = false)) (split nl content).
Proof. apply Forall_forall. intros l Hl. by apply split_lines_no_nl in Hl. Qed.

(** The lines of what the quoter wrote are the lines it had, with the one
    it quoted. *)
Lemma split_quoted content i line line' :
  split nl content !! i = Some line ->
  FixTitleQuotes.quote_line line = Some line' ->
  split nl (join [nl] (<[i := line']> (split nl content)))
  = <[i := line']> (split nl content).
Proof.
  intros Hi Hq. apply split_join.
  - intros Hnil. apply (f_equal length) in Hnil. rewrite length_insert in Hnil.
    apply lookup_lt_Some in Hi. simpl in Hnil. lia.
  - pose proof (split_no_nl content) as Hall.
    apply Forall_insert; [done|].
    apply (quote_line_no_nl line); [|done].
    rewrite Forall_forall in Hall. apply Hall. by apply list_elem_of_lookup_2 in Hi.
Qed.

Lemma quote_line_changes content i line line' :
  split nl content !! i = Some line ->
  FixTitleQuotes.quote_line line = Some line' ->
  FixTitleQuotes.quote_line line' = None
  /\ join [nl] (<[i := line']> (split nl content)) <> content.
Proof.
  intros Hi Hq.
  assert (FixTitleQuotes.quote_line line' = None) as Hq'.
  { destruct (quote_line_inv line line') as (ws & v & _ & _ & _ & ->); [|done|].
    - pose proof (split_no_nl content) as Hall. rewrite Forall_forall in Hall.
      apply Hall. by apply list_elem_of_lookup_2 in Hi.
    - apply quote_line_quoted. }
  split; [done|]. intros Heq. apply (f_equal (split nl)) in Heq.
  rewrite (split_quoted content i line line' Hi Hq) in Heq.
  apply (f_equal (fun l => l !! i)) in Heq.
  rewrite list_lookup_insert_eq in Heq by (by apply lookup_lt_Some in Hi).
  rewrite Hi in Heq. injection Heq as ->. congruence.
Qed.


(** C9, as stated, fails: with two title lines to quote, the first run
    quotes the first and the second run quotes the second, so the second
    run is not a no-op. *)
Lemma second_run_quotes_next_line :
  let p := [py "docs"; py "blog"; py "posts"; py "post.md"] in
  let content := doc ["title: a: b"; "title: c: d"]%string in
  let w1 := (FixTitleQuotes.fix_title_in_file p (World {[p := Text content]} [])).2 in
  let w2 := (FixTitleQuotes.fix_title_in_file p w1).2 in
  files w1 !! p
  = Some (Text (py "title: " ++ [dquote] ++ py "a: b" ++ [dquote] ++ [nl]
                  ++ py "title: c: d"))
  /\ files w2 !! p
     = Some (Text (py "title: " ++ [dquote] ++ py "a: b" ++ [dquote] ++ [nl]
                     ++ py "title: " ++ [dquote] ++ py "c: d" ++ [dquote]))
  /\ files w2 !! p <> files w1 !! p.
Proof. by vm_compute. Qed.

(** ** The model on the examples of the specification *)

Example h1_with_colon :
  extract_h1 (doc ["intro"; "# Example: Thing  "; "# Later"]%string)
  = Some (py "Example: Thing").
Proof. reflexivity. Qed.

Example deeper_heading_is_no_h1 :
  extract_h1 (doc ["## Section"; "#NoSpace"]%string) = None.
Proof. reflexivity. Qed.

Example index_uses_parent :
  generate_title_from_path [py "docs"; py "guides"; py "index.md"] = py "Guides".
Proof. reflexivity. Qed.

Example kebab_and_snake :
  generate_title_from_path [py "docs"; py "my-cool_page.md"] = py "My Cool Page".
Proof. reflexivity. Qed.

Example existing_title_skipped :
  let p := [py "docs"; py "page.md"] in
  let w := World {[p := Text (doc ["---"; "title: Already Set"; "---"; "text"]%string)]} [] in
  add_title_to_file p w = (Ok tt, World (files w) [Skipping p]).
Proof. by vm_compute. Qed.

Example quoted_title_untouched :
  FixTitleQuotes.quote_line (py "title: " ++ [dquote] ++ py "Already: Quoted" ++ [dquote])
  = None.
Proof. by vm_compute. Qed.

Example excluded_paths :
  excluded [py "docs"; py "tags.md"] = true
  /\ excluded [py "docs"; py "includes"; py "abbr.md"] = true
  /\ excluded [py "docs"; py "guides"; py "index.md"] = false.
Proof. by vm_compute. Qed.

(** ** The count of processed files *)

Lemma process_count md_files : forall k w n w',
  process md_files k w = (Ok n, w') ->
  n = (k + length (filter (fun f => excluded f = false) md_files))%nat.
Proof.
  induction md_files as [|f md_files IH]; intros k w n w' Hrun; cbn [process] in Hrun.
  - injection Hrun as <- _. simpl. lia.
  - rewrite filter_cons. destruct (excluded f) eqn:Hf.
    + rewrite decide_False by done. by apply IH in Hrun.
    + rewrite decide_True by done. unfold io_bind in Hrun.
      destruct (add_title_to_file f w) as [[[]|e] w1]; [|done].
      apply IH in Hrun. simpl. lia.
Qed.

(** X11: when the title inserter gets through its batch, the last line it
    prints counts the files of the batch that are not excluded, the
    skipped ones included. *)
Theorem inserter_main_count md_files w w' :
  AddMissingTitles.main md_files w = (Ok tt, w') ->
  last (output w')
  = Some (Processed (length (filter (fun f => excluded f = false) md_files))).
Proof.
  unfold AddMissingTitles.main, io_bind.
  destruct (process md_files 0 w) as [[n|e] w1] eqn:Hrun; [|done].
  intros [= <-]. cbn [output]. rewrite list.last_snoc.
  by rewrite (process_count md_files 0 w n w1 Hrun).
Qed.

Lemma inserter_main_count_witness :
  let tags := [py "docs"; py "tags.md"] in
  let page := [py "docs"; py "page.md"] in
  let w := World {[tags := Text (py "text"); page := Text (py "text")]} [] in
  last (output (AddMissingTitles.main [tags; page] w).2)
  = Some (Processed (length (filter (fun f => excluded f = false) [tags; page]))).
Proof.
  intros tags page w.
  apply (inserter_main_count [tags; page] w). reflexivity.
Defined.

(** ** More on the title made from the path *)

Lemma upper_not_separator c : is_separator c = false -> is_separator (upper c) = false.
Proof.
  unfold is_separator, upper, is_ascii_lower.
  change (ch "-") with 45. change (ch "_") with 95.
  rewrite !orb_false_iff, !N.eqb_neq. intros [H1 H2].
  destruct (N.leb_spec 97 c), (N.leb_spec c 122); simpl; split; lia.
Qed.

Lemma lower_not_separator c : is_separator c = false -> is_separator (lower c) = false.
Proof.
  unfold is_separator, lower, is_ascii_upper.
  change (ch "-") with 45. change (ch "_") with 95.
  rewrite !orb_false_iff, !N.eqb_neq. intros [H1 H2].
  destruct (N.leb_spec 65 c), (N.leb_spec c 90); simpl; split; lia.
Qed.

Lemma render_no_separator b : forall start,
  Forall (fun c => is_separator c = false) (render start b).
Proof.
  induction b as [|c b IH]; intros start; cbn [render]; constructor; [|apply IH].
  destruct (is_separator c) eqn:Hc; [done|].
  destruct start; [by apply upper_not_separator|by apply lower_not_separator].
Qed.

(** X3: the title made from a path has no hyphen and no underscore left:
    every separator of the base name has become a space. *)
Theorem generated_title_has_no_separator p :
  Forall (fun c => is_separator c = false) (generate_title_from_path p).
Proof. rewrite generate_title_render. apply render_no_separator. Qed.

(** ** More on the frontmatter splitter *)

Lemma lstrip_inv s : exists a, s = a ++ lstrip s /\ Forall (fun c => isspace c = true) a.
Proof.
  induction s as [|c s (a & Ha & Hws)]; [by exists []|].
  cbn [lstrip]. destruct (isspace c) eqn:Hc.
  - exists (c :: a). split; [by rewrite Ha at 1|by constructor].
  - by exists [].
Qed.

Lemma rstrip_inv s : exists b, s = rstrip s ++ b /\ Forall (fun c => isspace c = true) b.
Proof.
  destruct (lstrip_inv (reverse s)) as (a & Ha & Hws).
  exists (reverse a). split.
  - unfold rstrip. rewrite <- reverse_app, <- Ha. by rewrite reverse_involutive.
  - rewrite Forall_forall in *. intros x Hx. apply Hws. by apply elem_of_reverse.
Qed.

(** A stripped text sits in the text between white space. *)
Lemma strip_inv s :
  exists a b, s = a ++ strip s ++ b
              /\ Forall (fun c => isspace c = true) a
              /\ Forall (fun c => isspace c = true) b.
Proof.
  destruct (lstrip_inv s) as (a & Ha & Hwa).
  destruct (rstrip_inv (lstrip s)) as (b & Hb & Hwb).
  exists a, b. unfold strip. by rewrite <- Hb.
Qed.

(** X4: whenever the splitter finds a block, the document begins with the
    opening delimiter, the block ends at a line that is three dashes with
    nothing but white space around them, and the two parts are the lines
    before and after that line. *)
Theorem frontmatter_found_inv content :
  extract_frontmatter content <> ([], content) ->
  exists e a b,
    has_frontmatter content = true
    /\ (1 <= e)%nat
    /\ split nl content !! e = Some (a ++ py "---" ++ b)
    /\ Forall (fun c => isspace c = true) a
    /\ Forall (fun c => isspace c = true) b
    /\ extract_frontmatter content
       = (join [nl] (slice 1 e (split nl content)),
          join [nl] (drop (e + 1) (split nl content))).
Proof.
  intros Hfound. unfold extract_frontmatter in *.
  destruct (has_frontmatter content); [|done]. cbn [negb] in *.
  destruct (find_end (drop 1 (split nl content)) 1) as [e|] eqn:Hend; [|done].
  apply closes_at_find_end in Hend as (He & (l & Hl & Hs) & _).
  destruct (strip_inv l) as (a & b & Hab & Ha & Hb). rewrite Hs in Hab.
  exists e, a, b. by rewrite <- Hab.
Qed.

Lemma frontmatter_found_witness :
  let content := doc ["---"; "a: b"; " --- "; "text"]%string in
  exists e a b,
    has_frontmatter content = true
    /\ (1 <= e)%nat
    /\ split nl content !! e = Some (a ++ py "---" ++ b)
    /\ Forall (fun c => isspace c = true) a
    /\ Forall (fun c => isspace c = true) b
    /\ extract_frontmatter content
       = (join [nl] (slice 1 e (split nl content)),
          join [nl] (drop (e + 1) (split nl content))).
Proof.
  intros content. apply (frontmatter_found_inv content). by vm_compute.
Defined.

Lemma slice_lookup {A} (l : list A) a b j x :
  slice a b l !! j = Some x -> l !! (a + j)%nat = Some x /\ (a + j < b)%nat.
Proof.
  unfold slice. rewrite lookup_drop. intros H.
  apply lookup_take_Some in H as [H1 H2]. done.
Qed.

Lemma extract_frontmatter_lines content l :
  l ∈ split nl (extract_frontmatter content).1 -> strip l <> py "---".
Proof.
  assert (forall x : list N, x ∈ split nl [] -> strip x <> py "---") as Hnil.
  { intros x Hx. apply list_elem_of_singleton in Hx as ->. by vm_compute. }
  unfold extract_frontmatter.
  destruct (has_frontmatter content); [|apply Hnil]. cbn [negb].
  destruct (find_end (drop 1 (split nl content)) 1) as [e|] eqn:Hend; [|apply Hnil].
  apply closes_at_find_end in Hend as (He & _ & Hfirst). cbn [fst].
  destruct (slice 1 e (split nl content)) as [|x xs] eqn:Hslice; [apply Hnil|].
  rewrite <- Hslice. rewrite split_join.
  - intros Hl. apply list_elem_of_lookup in Hl as [j Hj].
    apply slice_lookup in Hj as [Hj Hlt]. apply (Hfirst (1 + j)%nat); [lia|done].
  - by rewrite Hslice.
  - apply Forall_forall. intros y Hy. apply list_elem_of_lookup in Hy as [j Hj].
    apply slice_lookup in Hj as [Hj _].
    apply (split_lines_no_nl nl content). by apply list_elem_of_lookup_2 in Hj.
Qed.

(** X5: no line of the frontmatter the splitter returns is a delimiter: the
    block ends at the first one. *)
Theorem frontmatter_has_no_delimiter content l :
  l ∈ split nl (extract_frontmatter content).1 -> strip l <> py "---".
Proof. apply extract_frontmatter_lines. Qed.

Lemma frontmatter_has_no_delimiter_witness :
  strip (py "a: b") <> py "---".
Proof.
  apply (frontmatter_has_no_delimiter (doc ["---"; "a: b"; "---"; "text"]%string)).
  vm_compute. by left.
Defined.

(** ** When the title inserter skips a file *)

(** A literal pattern reads its text and nothing else. *)
Lemma rmatch_lit ml l : forall k s,
  rmatch ml (Lit l) k s =
    if startswith l (rest s)
    then k (MState (from_option Some (prev s) (last l))
                   (drop (length l) (rest s)) (group1 s))
    else None.
Proof.
  induction l as [|c l IH]; intros k s.
  - by destruct s.
  - change (Lit (c :: l)) with (Cat (Chr c) (Lit l)). cbn [rmatch]. unfold eat.
    destruct (rest s) as [|x s'] eqn:Hs; [done|]. cbn [startswith].
    destruct (N.eqb_spec c x) as [->|Hne]; [|done]. cbn [andb].
    rewrite IH. cbn [rest prev group1 length drop].
    destruct (startswith l s'); [|done]. f_equal. f_equal.
    destruct l as [|c' l]; [done|]. rewrite last_cons_cons.
    destruct (last (c' :: l)) eqn:E; [done|]. by apply last_None in E.
Qed.

Lemma title_re_here before s :
  is_Some (rmatch true title_re Some (MState before s None))
  <-> at_bol true (MState before s None) = true /\ startswith (py "title:") s = true.
Proof.
  change title_re with (Cat Bol (Cat (Lit (py "title:")) Eps)).
  cbn [rmatch]. destruct (at_bol true _).
  - rewrite rmatch_lit. cbn [rest]. destruct (startswith (py "title:") s).
    + split; [done|]. intros _. by eexists.
    + split; [by intros [? ?]|by intros [_ ?]].
  - split; [by intros [? ?]|by intros [? _]].
Qed.

(** Text without a newline is at the start of a text when it is at the
    start of its first line. *)
Lemma startswith_first_line p s :
  Forall (fun c => (nl =? c) = false) p ->
  startswith p s = from_option (startswith p) false (head (split nl s)).
Proof.
  intros Hp. revert s. induction Hp as [|a p Ha Hp IH]; intros s.
  - unfold split. by destruct (split_on (N.eqb nl) s) eqn:E; [apply split_on_nonempty in E|].
  - destruct s as [|b s]; [done|]. unfold split in *. cbn [split_on startswith].
    destruct (N.eqb_spec nl b) as [<-|Hb].
    + cbn [head from_option startswith]. by rewrite N.eqb_sym, Ha.
    + specialize (IH s).
      destruct (split_on (N.eqb nl) s) as [|w ws] eqn:E; [by apply split_on_nonempty in E|].
      cbn [head from_option startswith] in *. by rewrite IH.
Qed.

Lemma search_title_lines s : forall before,
  is_Some (search_from true title_re before s)
  <-> (at_bol true (MState before s None) = true /\ startswith (py "title:") s = true)
      \/ (exists l, l ∈ tail (split nl s) /\ startswith (py "title:") l = true).
Proof.
  induction s as [|c s IH]; intros before; cbn [search_from].
  - pose proof (title_re_here before []) as Hhere.
    destruct (rmatch true title_re Some (MState before [] None)) as [m|].
    + split; [intros _; left; by apply Hhere|by eexists].
    + split; [by intros [? ?]|]. intros [H|(l & Hl & _)]; [by apply Hhere in H|].
      by apply elem_of_nil in Hl.
  - pose proof (title_re_here before (c :: s)) as Hhere.
    destruct (rmatch true title_re Some (MState before (c :: s) None)) as [m|].
    { split; [intros _; left; by apply Hhere|by eexists]. }
    rewrite IH. clear IH.
    assert (~ (at_bol true (MState before (c :: s) None) = true
               /\ startswith (py "title:") (c :: s) = true)) as Hnot.
    { intros H. apply Hhere in H. by destruct H. }
    assert (startswith (py "title:") s
            = from_option (startswith (py "title:")) false (head (split nl s))) as Hhead.
    { apply startswith_first_line. by repeat constructor. }
    unfold split in *. cbn [split_on at_bol prev andb].
    destruct (split_on (N.eqb nl) s) as [|w ws] eqn:E; [by apply split_on_nonempty in E|].
    cbn [head from_option] in Hhead. rewrite (N.eqb_sym c nl).
    destruct (N.eqb_spec nl c) as [<-|Hc]; cbn [tail].
    + split.
      * intros [[_ H]|(l & Hl & H)]; right.
        -- exists w. split; [by left|congruence].
        -- exists l. split; [by right|done].
      * intros [H|(l & Hl & H)]; [done|].
        apply elem_of_cons in Hl as [->|Hl]; [left; split; [done|congruence]|].
        right. by exists l.
    + split.
      * intros [[H _]|H]; [done|by right].
      * intros [H|H]; [done|by right].
Qed.

(** The search for [^title:] in a text finds something exactly when one
    of the lines of the text starts with [title:]. *)
Lemma search_title_iff s :
  is_Some (re_search true title_re s)
  <-> exists l, l ∈ split nl s /\ startswith (py "title:") l = true.
Proof.
  unfold re_search. rewrite search_title_lines. cbn [at_bol prev].
  rewrite (startswith_first_line (py "title:") s) by (by repeat constructor).
  pose proof (split_on_nonempty (N.eqb nl) s) as Hne. unfold split.
  destruct (split_on (N.eqb nl) s) as [|w ws]; [done|]. cbn [head from_option tail].
  split.
  - intros [[_ H]|(l & Hl & H)]; [exists w|exists l]; (split; [|done]); [by left|by right].
  - intros (l & Hl & H). apply elem_of_cons in Hl as [->|Hl]; [by left|].
    right. by exists l.
Qed.

(** X7: the title inserter skips a file exactly when a line of its
    frontmatter starts with [title:]; a title key that is indented or
    written with a capital does not count, and neither does a title line
    of the body. *)
Theorem inserter_skips_iff p w content :
  files w !! p = Some (Text content) ->
  add_title_to_file p w = (Ok tt, World (files w) (output w ++ [Skipping p]))
  <-> exists l, l ∈ split nl (extract_frontmatter content).1
                /\ startswith (py "title:") l = true.
Proof.
  intros Hp. rewrite (add_title_to_file_run p w content Hp), <- search_title_iff.
  destruct (re_search true title_re (extract_frontmatter content).1) as [m|].
  - split; [by eexists|done].
  - split; [|by intros [? ?]]. cbv zeta. intros [= _ Hout].
    apply app_inv_head in Hout. discriminate.
Qed.

Lemma inserter_skips_witness :
  let p := [py "docs"; py "page.md"] in
  let content := doc ["---"; "a: b"; "title: T"; "---"; "text"]%string in
  let w := World {[p := Text content]} [] in
  add_title_to_file p w = (Ok tt, World (files w) (output w ++ [Skipping p]))
  <-> exists l, l ∈ split nl (extract_frontmatter content).1
                /\ startswith (py "title:") l = true.
Proof.
  intros p content w. apply (inserter_skips_iff p w content). reflexivity.
Defined.

(** ** Putting a document together and splitting it again *)

Lemma assembled_lines frontmatter body :
  split nl (py "---" ++ [nl] ++ frontmatter ++ [nl] ++ py "---" ++ [nl] ++ body)
  = py "---" :: split nl frontmatter ++ py "---" :: split nl body.
Proof.
  change (py "---" ++ [nl] ++ frontmatter ++ [nl] ++ py "---" ++ [nl] ++ body)
    with (py "---" ++ nl :: (frontmatter ++ nl :: (py "---" ++ nl :: body))).
  rewrite split_frontmatter. unfold split.
  rewrite split_on_app by done. rewrite (split_on_app _ (py "---")) by done.
  by rewrite (split_on_whole _ (py "---")) by (by repeat constructor).
Qed.

Lemma extract_frontmatter_assembled frontmatter body :
  (forall l, l ∈ split nl frontmatter -> strip l <> py "---") ->
  extract_frontmatter
    (py "---" ++ [nl] ++ frontmatter ++ [nl] ++ py "---" ++ [nl] ++ body)
  = (frontmatter, body).
Proof.
  intros Hfm.
  set (content := py "---" ++ [nl] ++ frontmatter ++ [nl] ++ py "---" ++ [nl] ++ body).
  pose proof (assembled_lines frontmatter body) as Hlines. fold content in Hlines.
  set (e := S (length (split nl frontmatter))).
  rewrite (extract_frontmatter_closed content e).
  - rewrite Hlines. unfold slice, e.
    replace (S (length (split nl frontmatter)) + 1)%nat
      with (S (length (split nl frontmatter) + 1)) by lia.
    cbn [take drop]. rewrite take_app_length, drop_0.
    rewrite cons_middle, app_assoc.
    rewrite drop_app_length' by (rewrite length_app; simpl; lia).
    by rewrite !join_split.
  - apply has_frontmatter_inv. by eexists.
  - rewrite Hlines. unfold e. split; [lia|]. split.
    + exists (py "---"). split; [|done].
      exact (list_lookup_middle (split nl frontmatter) (split nl body) (py "---")
               (length (split nl frontmatter)) eq_refl).
    + intros j l Hj Hl. destruct j as [|j]; [lia|].
      change ((split nl frontmatter ++ py "---" :: split nl body) !! j = Some l) in Hl.
      rewrite lookup_app_l in Hl by lia.
      apply Hfm. by apply list_elem_of_lookup_2 in Hl.
Qed.

(** X6: splitting undoes assembling: for every frontmatter without a
    delimiter line and every body, the splitter gives both back from the
    document made of the opening delimiter, the frontmatter, the closing
    delimiter and the body. *)
Theorem split_of_assembled frontmatter body :
  (forall l, l ∈ split nl frontmatter -> strip l <> py "---") ->
  extract_frontmatter
    (py "---" ++ [nl] ++ frontmatter ++ [nl] ++ py "---" ++ [nl] ++ body)
  = (frontmatter, body).
Proof. apply extract_frontmatter_assembled. Qed.

Lemma split_of_assembled_witness :
  extract_frontmatter
    (py "---" ++ [nl] ++ py "a: b" ++ [nl] ++ py "---" ++ [nl] ++ py "text")
  = (py "a: b", py "text").
Proof.
  apply (split_of_assembled (py "a: b") (py "text")).
  intros l Hl. vm_compute in Hl. apply list_elem_of_singleton in Hl as ->. by vm_compute.
Defined.

Lemma title_line_lines title frontmatter l :
  Forall (fun c => (nl =? c) = false) title ->
  (forall x, x ∈ split nl frontmatter -> strip x <> py "---") ->
  l ∈ split nl (py "title: " ++ title ++
                match frontmatter with [] => [] | _ :: _ => nl :: frontmatter end) ->
  strip l <> py "---".
Proof.
  intros Ht Hfm Hl.
  assert (strip (py "title: " ++ title) <> py "---") as Htitle.
  { change (py "title: " ++ title) with (ch "t" :: (py "itle: " ++ title)).
    by rewrite strip_cons_other. }
  assert (Forall (fun c => (nl =? c) = false) (py "title: " ++ title)) as Hline.
  { apply Forall_app. split; [by repeat constructor|done]. }
  unfold split in *. destruct frontmatter as [|c fm].
  - rewrite app_nil_r, split_on_whole in Hl by done.
    by apply list_elem_of_singleton in Hl as ->.
  - rewrite app_assoc, split_on_app, split_on_whole in Hl by done.
    apply elem_of_cons in Hl as [->|Hl]; [done|by apply Hfm].
Qed.

(** X8: after the title inserter has written a file, the splitter finds in
    it a frontmatter that is the title line followed by the lines of the
    old frontmatter, in their order, and a body that is the old body less
    its leading white space. *)
Theorem inserted_title_leads_frontmatter p w content :
  files w !! p = Some (Text content) ->
  re_search true title_re (extract_frontmatter content).1 = None ->
  Forall (fun c => (nl =? c) = false) (resolve_title p content) ->
  exists content',
    files (add_title_to_file p w).2 !! p = Some (Text content')
    /\ extract_frontmatter content'
       = (py "title: " ++ resolve_title p content ++
            match (extract_frontmatter content).1 with
            | [] => []
            | _ :: _ => nl :: (extract_frontmatter content).1
            end,
          lstrip (extract_frontmatter content).2).
Proof.
  intros Hp Hnotitle Htitle.
  rewrite (add_title_to_file_run p w content Hp), Hnotitle. cbv zeta.
  eexists. split; [cbn [snd files]; apply lookup_insert_eq|].
  pose proof (extract_frontmatter_lines content) as Hfm.
  pose proof (title_line_lines (resolve_title p content)
                (extract_frontmatter content).1) as Hlines.
  destruct (extract_frontmatter content) as [frontmatter body]. cbn [fst snd] in *.
  rewrite <- (extract_frontmatter_assembled _ (lstrip body)).
  - f_equal. unfold new_content. destruct frontmatter; by rewrite <- ?app_assoc, ?app_nil_r.
  - intros l Hl. by apply Hlines.
Qed.

Lemma inserted_title_leads_witness :
  let p := [py "docs"; py "page.md"] in
  let content := doc ["---"; "a: b"; "---"; ""; "# Hello"]%string in
  let w := World {[p := Text content]} [] in
  exists content',
    files (add_title_to_file p w).2 !! p = Some (Text content')
    /\ extract_frontmatter content'
       = (py "title: " ++ resolve_title p content ++
            match (extract_frontmatter content).1 with
            | [] => []
            | _ :: _ => nl :: (extract_frontmatter content).1
            end,
          lstrip (extract_frontmatter content).2).
Proof.
  intros p content w. apply (inserted_title_leads_frontmatter p w content).
  - reflexivity.
  - reflexivity.
  - vm_compute. repeat constructor.
Defined.

(** ** The greedy star *)

Lemma advance_nil s : advance s [] = s.
Proof. by destruct s. Qed.

Lemma advance_cons s c a t :
  rest s = c :: a ++ t ->
  advance (MState (Some c) (a ++ t) (group1 s)) a = advance s (c :: a).
Proof.
  intros Hs. unfold advance. cbn [prev rest group1 length]. rewrite Hs.
  cbn [drop]. f_equal. destruct a as [|x a]; [done|]. rewrite last_cons_cons.
  destruct (last (x :: a)) eqn:E; [done|]. by apply last_None in E.
Qed.

(** The star over a class can stop after any run of characters of the
    class that the rest of the pattern accepts. *)
Lemma star_cls_exists ml p k a : forall s t,
  rest s = a ++ t ->
  Forall (fun c => p c = true) a ->
  is_Some (k (advance s a)) ->
  is_Some (rmatch ml (Star (Cls p)) k s).
Proof.
  intros s t Hs Ha Hk. cbn [rmatch].
  assert (length a <= length (rest s))%nat as Hfuel by (rewrite Hs, length_app; lia).
  revert Hfuel. generalize (length (rest s)). intros fuel Hfuel.
  revert s t fuel Hs Hk Hfuel.
  induction Ha as [|c a Hc Ha IH]; intros s t fuel Hs Hk Hfuel.
  - rewrite advance_nil in Hk. destruct fuel as [|fuel]; [done|].
    cbv beta iota fix.
    by destruct (eat p _ s).
  - destruct fuel as [|fuel]; [simpl in Hfuel; lia|].
    cbv beta iota fix. unfold eat at 1. rewrite Hs. cbn [app]. rewrite Hc.
    cbn [rest]. rewrite bool_decide_eq_true_2 by (simpl; lia).
    rewrite <- (advance_cons s c a t Hs) in Hk.
    destruct (IH (MState (Some c) (a ++ t) (group1 s)) t fuel eq_refl Hk) as [m Hm];
      [simpl in *; lia|].
    by rewrite Hm.
Qed.

(** The star over a class reads as far as the class goes, when the rest of
    the pattern accepts that. *)
Lemma star_cls_greedy ml p k a m : forall s t,
  rest s = a ++ t ->
  Forall (fun c => p c = true) a ->
  from_option (fun c => p c = false) True (head t) ->
  k (advance s a) = Some m ->
  rmatch ml (Star (Cls p)) k s = Some m.
Proof.
  intros s t Hs Ha Ht Hk. cbn [rmatch].
  assert (length a <= length (rest s))%nat as Hfuel by (rewrite Hs, length_app; lia).
  revert Hfuel. generalize (length (rest s)). intros fuel Hfuel.
  revert s fuel Hs Hk Hfuel.
  induction Ha as [|c a Hc Ha IH]; intros s fuel Hs Hk Hfuel.
  - rewrite advance_nil in Hk. destruct fuel as [|fuel]; [done|].
    cbv beta iota fix. unfold eat at 1. cbn [app] in Hs. rewrite Hs.
    destruct t as [|x t]; [done|]. cbn [head from_option] in Ht. by rewrite Ht.
  - destruct fuel as [|fuel]; [simpl in Hfuel; lia|].
    cbv beta iota fix. unfold eat at 1. rewrite Hs. cbn [app]. rewrite Hc.
    cbn [rest]. rewrite bool_decide_eq_true_2 by (simpl; lia).
    rewrite <- (advance_cons s c a t Hs) in Hk.
    rewrite (IH (MState (Some c) (a ++ t) (group1 s)) fuel eq_refl Hk); [done|].
    simpl in *. lia.
Qed.

(** ** The heading pattern *)

(** What the heading pattern reads: a hash, white space, and the text it
    captures. *)
Lemma h1_re_inv line m :
  re_match false h1_re line = Some m ->
  exists ws tail,
    line = ch "#" :: ws ++ group m ++ tail
    /\ ws <> [] /\ Forall (fun c => isspace c = true) ws
    /\ group m <> []
    /\ (tail = [] \/ tail = [nl]).
Proof.
  intros Hm. apply rmatch_sound in Hm as (s' & H & Hs'). injection Hs' as ->.
  apply steps_cat_inv in H as (s1 & H1 & H). apply steps_bol_inv in H1 as ->.
  apply steps_cat_inv in H as (s2 & H2 & H). apply steps_chr_inv in H2 as [E2 _].
  apply steps_cat_inv in H as (s3 & H3 & H).
  apply steps_plus_cls_inv in H3 as (c & ws & E3 & Hws & _).
  apply steps_cat_inv in H as (s4 & H4 & H).
  apply steps_cat_inv in H as (s5 & H5 & H).
  apply steps_eol_inv in H5 as [-> Heol]. apply steps_eps_inv in H as ->.
  inversion H4 as [| | | | | | | |r s s5 Hg]; subst. clear H4.
  apply steps_plus_cls_inv in Hg as (d & v & E4 & Hv & _).
  cbn [rest] in *. apply at_eol_inv in Heol. cbn [rest] in Heol.
  unfold group. cbn [group1 default].
  rewrite (consumed_prefix s3 s5 (d :: v)) by done.
  exists (c :: ws), (rest s5). rewrite E2, E3, E4. done.
Qed.

Lemma rmatch_cat ml r1 r2 k s :
  rmatch ml (Cat r1 r2) k s = rmatch ml r1 (rmatch ml r2 k) s.
Proof. done. Qed.

Lemma rmatch_bol ml k s : at_bol ml s = true -> rmatch ml Bol k s = k s.
Proof. intros H. cbn [rmatch]. by rewrite H. Qed.

Lemma rmatch_eol ml k s : at_eol ml s = true -> rmatch ml Eol k s = k s.
Proof. intros H. cbn [rmatch]. by rewrite H. Qed.

Lemma rmatch_chr_cons ml c k before t g :
  rmatch ml (Chr c) k (MState before (c :: t) g) = k (MState (Some c) t g).
Proof. cbn [rmatch]. unfold eat. cbn [rest group1]. by rewrite N.eqb_refl. Qed.

Lemma rmatch_cls_cons ml p c k before t g :
  p c = true ->
  rmatch ml (Cls p) k (MState before (c :: t) g) = k (MState (Some c) t g).
Proof. intros H. cbn [rmatch]. unfold eat. cbn [rest group1]. by rewrite H. Qed.

Lemma rmatch_grp ml r k s :
  rmatch ml (Grp r) k s
  = rmatch ml r (fun s' => k (MState (prev s') (rest s') (Some (consumed s s')))) s.
Proof. done. Qed.

Lemma not_nl_dot (a : list N) :
  Forall (fun y => (nl =? y) = false) a -> Forall (fun y => negb (y =? nl) = true) a.
Proof.
  intros H. eapply Forall_impl; [exact H|]. intros y Hy. cbv beta.
  by rewrite N.eqb_sym, Hy.
Qed.

(** A hash, a white space character and some more text on one line are
    a heading for the pattern. *)
Lemma h1_re_matches c x r :
  isspace c = true ->
  Forall (fun y => (nl =? y) = false) (x :: r) ->
  is_Some (re_match false h1_re (ch "#" :: c :: x :: r)).
Proof.
  intros Hc Hr. apply not_nl_dot in Hr. apply Forall_cons in Hr as [Hx Hr].
  unfold re_match.
  change h1_re with (Cat Bol (Cat (Chr (ch "#"))
    (Cat (Cat (Cls isspace) (Star (Cls isspace)))
       (Cat (Grp (Cat (Cls (fun y => negb (y =? nl))) (Star (Cls (fun y => negb (y =? nl))))))
          (Cat Eol Eps))))).
  rewrite rmatch_cat, rmatch_bol by done.
  rewrite rmatch_cat, rmatch_chr_cons.
  rewrite rmatch_cat, rmatch_cat, rmatch_cls_cons by done.
  apply (star_cls_exists _ _ _ [] _ (x :: r)); [done|done|].
  rewrite advance_nil.
  rewrite rmatch_cat, rmatch_grp, rmatch_cat, rmatch_cls_cons by done.
  apply (star_cls_exists _ _ _ r _ []); [by rewrite app_nil_r|done|].
  cbv beta. unfold advance. cbn [rest prev group1]. rewrite drop_all.
  rewrite rmatch_cat, rmatch_eol by done. by eexists.
Qed.

(** On a line the heading pattern and the plain reading of a heading
    agree: the text is what follows the hash, stripped. *)
Lemma h1_match_text line :
  Forall (fun y => (nl =? y) = false) line ->
  (fun m => strip (group m)) <$> re_match false h1_re line = h1_text line.
Proof.
  intros Hnl. destruct (re_match false h1_re line) as [m|] eqn:Hm; cbn [fmap option_fmap option_map].
  - apply h1_re_inv in Hm as (ws & tail & -> & Hne & Hws & Hv & Htail).
    assert (tail = []) as ->.
    { destruct Htail as [->| ->]; [done|]. exfalso.
      apply Forall_cons in Hnl as [_ Hnl]. rewrite !Forall_app in Hnl.
      destruct Hnl as (_ & _ & Hnl). by inversion Hnl. }
    rewrite app_nil_r. destruct ws as [|c ws]; [done|].
    apply Forall_cons in Hws as [Hc Hws].
    destruct (group m) as [|x v] eqn:Hg; [done|].
    assert (strip ((c :: ws) ++ x :: v) = strip (x :: v)) as Hstrip.
    { unfold strip. by rewrite lstrip_spaces by (by constructor). }
    destruct ws as [|c' ws]; cbn [app h1_text] in *.
    + rewrite N.eqb_refl, Hc. cbn [andb]. by rewrite Hstrip.
    + rewrite N.eqb_refl, Hc. cbn [andb]. by rewrite Hstrip.
  - destruct line as [|h [|c [|x r]]]; try done. cbn [h1_text].
    destruct (N.eqb_spec h (ch "#")) as [->|Hh]; [|done].
    destruct (isspace c) eqn:Hc; [|done]. exfalso.
    apply Forall_cons in Hnl as [_ Hnl]. apply Forall_cons in Hnl as [_ Hnl].
    destruct (h1_re_matches c x r Hc Hnl) as [m Hm']. congruence.
Qed.

Lemma first_h1_text lines :
  Forall (Forall (fun y => (nl =? y) = false)) lines ->
  first_h1 lines = head (omap h1_text lines).
Proof.
  induction 1 as [|line lines Hline _ IH]; [done|].
  cbn [first_h1 omap list_omap]. rewrite <- (h1_match_text line Hline).
  destruct (re_match false h1_re line) as [m|]; [done|]. apply IH.
Qed.

(** X1: the heading of a document, without the pattern: the text after the
    hash, stripped, of the first line that is a hash, a white space
    character and at least one more character.  Lines with two hashes, or
    with nothing but one white space after the hash, are passed over; a
    line with only white space after the hash gives the empty text. *)
Theorem extract_h1_plain content :
  extract_h1 content = head (omap h1_text (split nl content)).
Proof. unfold extract_h1. apply first_h1_text, split_no_nl. Qed.

(** ** Which lines the quoter quotes *)

Lemma advance_app s a t :
  rest s = a ++ t ->
  advance s a = MState (from_option Some (prev s) (last a)) t (group1 s).
Proof. intros Hs. unfold advance. by rewrite Hs, drop_app_length. Qed.

Lemma none_of_true (cs : list N) (c : N) : c ∉ cs -> negb (bool_decide (c ∈ cs)) = true.
Proof. intros H. by rewrite bool_decide_eq_false_2. Qed.

Lemma rmatch_title_prefix k x :
  rmatch false (Lit (py "title:")) k (MState None (py "title:" ++ x) None)
  = k (MState (Some (ch ":")) x None).
Proof.
  rewrite rmatch_lit. cbn [rest prev group1].
  assert (startswith (py "title:") (py "title:" ++ x) = true) as ->
    by (apply startswith_spec; by eexists).
  by rewrite drop_app_length.
Qed.

(** The first pattern of the quoter accepts a line with [title:], white
    space, and a value that has a colon after its first character and
    before its last, with no quote at either end. *)
Lemma unquoted_re_matches ws c1 m1 m2 cl :
  ws <> [] -> Forall (fun c => isspace c = true) ws ->
  c1 ∉ FixTitleQuotes.quotes -> cl ∉ FixTitleQuotes.quotes ->
  Forall (fun y => (nl =? y) = false) (m1 ++ ch ":" :: m2) ->
  is_Some (re_match false FixTitleQuotes.unquoted_re
             (py "title:" ++ ws ++ c1 :: m1 ++ ch ":" :: m2 ++ [cl])).
Proof.
  intros Hne Hws Hc1 Hcl Hnl. apply not_nl_dot in Hnl.
  apply Forall_app in Hnl as [Hm1 Hm2]. apply Forall_cons in Hm2 as [_ Hm2].
  destruct ws as [|w0 ws]; [done|]. apply Forall_cons in Hws as [Hw0 Hws].
  unfold re_match.
  change FixTitleQuotes.unquoted_re with
    (Cat Bol (Cat (Lit (py "title:"))
       (Cat (Cat (Cls isspace) (Star (Cls isspace)))
          (Cat (none_of FixTitleQuotes.quotes)
             (Cat (Star (Cls (fun y => negb (y =? nl))))
                (Cat (Chr (ch ":"))
                   (Cat (Star (Cls (fun y => negb (y =? nl))))
                      (Cat (none_of FixTitleQuotes.quotes) (Cat Eol Eps))))))))).
  unfold none_of.
  rewrite rmatch_cat, rmatch_bol by done.
  rewrite rmatch_cat, rmatch_title_prefix.
  cbn [app]. rewrite rmatch_cat, rmatch_cat, rmatch_cls_cons by done.
  eapply (star_cls_exists _ _ _ ws); [done|done|].
  rewrite (advance_app _ ws (c1 :: m1 ++ ch ":" :: m2 ++ [cl])) by done.
  rewrite rmatch_cat, rmatch_cls_cons by (by apply none_of_true).
  rewrite rmatch_cat.
  eapply (star_cls_exists _ _ _ m1); [done|done|].
  rewrite (advance_app _ m1 (ch ":" :: m2 ++ [cl])) by done.
  rewrite rmatch_cat, rmatch_chr_cons, rmatch_cat.
  eapply (star_cls_exists _ _ _ m2); [done|done|].
  rewrite (advance_app _ m2 [cl]) by done.
  rewrite rmatch_cat, rmatch_cls_cons by (by apply none_of_true).
  rewrite rmatch_cat, rmatch_eol by done. by eexists.
Qed.

(** The second pattern captures the whole value when the value starts
    with a character that is not white space. *)
Lemma value_re_captures ws v0 v :
  ws <> [] -> Forall (fun c => isspace c = true) ws ->
  isspace v0 = false ->
  Forall (fun y => (nl =? y) = false) (v0 :: v) ->
  exists m, re_match false FixTitleQuotes.value_re (py "title:" ++ ws ++ v0 :: v) = Some m
            /\ group m = v0 :: v.
Proof.
  intros Hne Hws Hv0 Hnl. apply not_nl_dot in Hnl. apply Forall_cons in Hnl as [Hd Hnl].
  destruct ws as [|w0 ws]; [done|]. apply Forall_cons in Hws as [Hw0 Hws].
  eexists. split.
  - unfold re_match.
    change FixTitleQuotes.value_re with
      (Cat Bol (Cat (Lit (py "title:"))
         (Cat (Cat (Cls isspace) (Star (Cls isspace)))
            (Cat (Grp (Cat (Cls (fun y => negb (y =? nl)))
                          (Star (Cls (fun y => negb (y =? nl))))))
               (Cat Eol Eps))))).
    rewrite rmatch_cat, rmatch_bol by done.
    rewrite rmatch_cat, rmatch_title_prefix.
    cbn [app]. rewrite rmatch_cat, rmatch_cat, rmatch_cls_cons by done.
    eapply (star_cls_greedy _ _ _ ws _ _ (v0 :: v)); [done|done|done|].
    rewrite (advance_app _ ws (v0 :: v)) by done.
    rewrite rmatch_cat, rmatch_grp, rmatch_cat, rmatch_cls_cons by done.
    eapply (star_cls_greedy _ _ _ v _ _ []); [by rewrite app_nil_r|done|done|].
    rewrite (advance_app _ v []) by (by rewrite app_nil_r).
    cbv beta. cbn [prev rest]. rewrite rmatch_cat, rmatch_eol by done.
    reflexivity.
  - unfold group, consumed. cbn [group1 default rest length].
    rewrite Nat.sub_0_r. change (S (length v)) with (length (v0 :: v)).
    by rewrite firstn_all.
Qed.

(** A line the first pattern matches has a colon after [title:]. *)
Lemma unquoted_re_colon line m :
  re_match false FixTitleQuotes.unquoted_re line = Some m ->
  exists x y, line = py "title:" ++ x ++ ch ":" :: y.
Proof.
  intros Hm. apply rmatch_sound in Hm as (s' & H & _).
  apply steps_cat_inv in H as (s1 & H1 & H). apply steps_bol_inv in H1 as ->.
  apply steps_cat_inv in H as (s2 & H2 & H). apply steps_lit_inv in H2 as [E2 _].
  apply steps_cat_inv in H as (s3 & H3 & H). apply steps_reads in H3 as [a3 E3].
  apply steps_cat_inv in H as (s4 & H4 & H). apply steps_reads in H4 as [a4 E4].
  apply steps_cat_inv in H as (s5 & H5 & H). apply steps_reads in H5 as [a5 E5].
  apply steps_cat_inv in H as (s6 & H6 & _). apply steps_chr_inv in H6 as [E6 _].
  exists (a3 ++ a4 ++ a5), (rest s6). cbn [rest] in E2.
  rewrite E2, E3, E4, E5, E6. by rewrite <- !app_assoc.
Qed.

(** X13: the quoter quotes every line made of [title:], white space, and a
    value on the line that starts with a character that is neither white
    space nor a quote, has a colon after that character and at least one
    character after the colon, and does not end with a quote; the new
    line is [title: ] and the whole value between double quotes, whatever
    quotes or colons the value has inside. *)
Theorem quoter_quotes_value_with_colon ws c1 m1 m2 cl :
  ws <> [] -> Forall (fun c => isspace c = true) ws ->
  isspace c1 = false ->
  c1 ∉ FixTitleQuotes.quotes -> cl ∉ FixTitleQuotes.quotes ->
  Forall (fun y => (nl =? y) = false) (c1 :: m1 ++ ch ":" :: m2 ++ [cl]) ->
  FixTitleQuotes.quote_line (py "title:" ++ ws ++ c1 :: m1 ++ ch ":" :: m2 ++ [cl])
  = Some (py "title: " ++ [dquote] ++ (c1 :: m1 ++ ch ":" :: m2 ++ [cl]) ++ [dquote]).
Proof.
  intros Hne Hws Hsp Hc1 Hcl Hnl. unfold FixTitleQuotes.quote_line.
  destruct (unquoted_re_matches ws c1 m1 m2 cl) as [m0 ->]; [done|done|done|done| |].
  { apply Forall_cons in Hnl as [_ Hnl]. rewrite app_comm_cons, app_assoc in Hnl.
    by apply Forall_app in Hnl as [Hnl _]. }
  destruct (value_re_captures ws c1 (m1 ++ ch ":" :: m2 ++ [cl])) as (m & -> & ->);
    [done|done|done|done|].
  cbn [startswith].
  assert (dquote <> c1) as Hd.
  { intros <-. apply Hc1. unfold FixTitleQuotes.quotes. by left. }
  assert (squote <> c1) as Hs.
  { intros <-. apply Hc1. unfold FixTitleQuotes.quotes. right. by left. }
  apply N.eqb_neq in Hd, Hs. by rewrite Hd, Hs.
Qed.

Lemma quoter_quotes_value_witness :
  FixTitleQuotes.quote_line
    (py "title:" ++ py " " ++ ch "a" :: py "b" ++ ch ":" :: py " c" ++ [ch "d"])
  = Some (py "title: " ++ [dquote]
            ++ (ch "a" :: py "b" ++ ch ":" :: py " c" ++ [ch "d"]) ++ [dquote]).
Proof.
  apply (quoter_quotes_value_with_colon (py " ") (ch "a") (py "b") (py " c") (ch "d")).
  - done.
  - repeat constructor.
  - reflexivity.
  - by vm_compute; intros H; repeat (apply elem_of_cons in H as [H|H]; [done|]);
      apply elem_of_nil in H.
  - by vm_compute; intros H; repeat (apply elem_of_cons in H as [H|H]; [done|]);
      apply elem_of_nil in H.
  - repeat constructor.
Defined.

(** X14: the quoter quotes no other kind of line: a line it quotes is
    [title:], white space, and a value that does not start with a quote,
    does not end with a quote and has a colon in it. *)
Theorem quoter_quotes_only line line' :
  Forall (fun y => (nl =? y) = false) line ->
  FixTitleQuotes.quote_line line = Some line' ->
  exists ws c0 v cl,
    line = py "title:" ++ ws ++ c0 :: v
    /\ ws <> [] /\ Forall (fun c => isspace c = true) ws
    /\ c0 <> dquote /\ c0 <> squote
    /\ last (c0 :: v) = Some cl /\ cl <> dquote /\ cl <> squote
    /\ ch ":" ∈ c0 :: v
    /\ line' = py "title: " ++ [dquote] ++ (c0 :: v) ++ [dquote].
Proof.
  intros Hnl. unfold FixTitleQuotes.quote_line.
  destruct (re_match false FixTitleQuotes.unquoted_re line) as [m0|] eqn:Hm0; [|done].
  destruct (re_match false FixTitleQuotes.value_re line) as [m|] eqn:Hm; [|done].
  destruct (negb _) eqn:Hq; [|done]. intros [= <-].
  apply value_re_inv in Hm as (ws & tail & E & Hne & Hws & Hv & _ & Htail).
  assert (tail = []) as ->.
  { destruct Htail as [->| ->]; [done|]. exfalso. rewrite E, !Forall_app in Hnl.
    destruct Hnl as (_ & _ & _ & Hnl). by inversion Hnl. }
  rewrite app_nil_r in E.
  destruct (group m) as [|c0 v] eqn:Hg; [done|]. clear Hv.
  apply negb_true_iff, orb_false_iff in Hq as [Hd Hs].
  cbn [startswith] in Hd, Hs. rewrite andb_true_r in Hd, Hs.
  apply N.eqb_neq in Hd, Hs.
  apply unquoted_re_inv in Hm0 as Hlast.
  destruct Hlast as (a & c & tail & E' & Hcd & Hcs & Htail').
  assert (tail = []) as ->.
  { destruct Htail' as [->| ->]; [done|]. exfalso. rewrite E', !Forall_app in Hnl.
    destruct Hnl as (_ & Hnl). apply Forall_cons in Hnl as [_ Hnl]. by inversion Hnl. }
  apply unquoted_re_colon in Hm0 as (x & y & E'').
  exists ws, c0, v, c. split; [done|]. split; [done|]. split; [done|].
  split; [done|]. split; [done|]. split; [|split; [done|split; [done|split; [|done]]]].
  - assert (last line = Some c) as Hl by (rewrite E'; apply list.last_snoc).
    rewrite E in Hl. rewrite !last_app in Hl.
    destruct (last (c0 :: v)) eqn:E3; [done|]. by apply last_None in E3.
  - rewrite E in E''. apply app_inv_head in E''.
    assert (ch ":" ∈ ws ++ c0 :: v) as Hin.
    { rewrite E''. apply elem_of_app. right. by left. }
    apply elem_of_app in Hin as [Hin|Hin]; [|done].
    rewrite Forall_forall in Hws. by apply Hws in Hin.
Qed.

Lemma quoter_quotes_only_witness :
  exists ws c0 v cl,
    py "title: a: b" = py "title:" ++ ws ++ c0 :: v
    /\ ws <> [] /\ Forall (fun c => isspace c = true) ws
    /\ c0 <> dquote /\ c0 <> squote
    /\ last (c0 :: v) = Some cl /\ cl <> dquote /\ cl <> squote
    /\ ch ":" ∈ c0 :: v
    /\ py "title: " ++ [dquote] ++ py "a: b" ++ [dquote]
       = py "title: " ++ [dquote] ++ (c0 :: v) ++ [dquote].
Proof.
  apply (quoter_quotes_only (py "title: a: b")).
  - repeat constructor.
  - reflexivity.
Defined.

(** ** Runs of the quoter, one after the other *)

Lemma filter_insert_one {A} (P : A -> Prop) `{forall x, Decision (P x)}
    (l : list A) i x y :
  l !! i = Some x -> P x -> ~ P y ->
  (length (filter P (<[i := y]> l)) + 1)%nat = length (filter P l).
Proof.
  intros Hi Hx Hy.
  rewrite <- (take_drop_middle l i x Hi) at 2.
  rewrite insert_take_drop by (by apply lookup_lt_Some in Hi).
  rewrite !filter_app, !filter_cons.
  destruct (decide (P x)); [|done]. destruct (decide (P y)); [done|].
  rewrite !length_app. simpl. lia.
Qed.

(** X15: a run of the quoter on a document with lines to quote quotes one of
    them and no more: the document keeps its number of lines and has one
    line to quote less, so that as many runs as there were such lines
    leave none. *)
Theorem quoter_run_quotes_one_line p w content :
  files w !! p = Some (Text content) ->
  quotable_lines content <> [] ->
  exists content',
    files (FixTitleQuotes.fix_title_in_file p w).2 !! p = Some (Text content')
    /\ length (split nl content') = length (split nl content)
    /\ (length (quotable_lines content') + 1)%nat = length (quotable_lines content).
Proof.
  intros Hp Hsome. rewrite (fix_title_in_file_run p w content Hp).
  destruct (FixTitleQuotes.scan (split nl content) 0) as [[i line']|] eqn:Hscan.
  - apply scan_some in Hscan as (line & Hi & _ & Hq & _). rewrite Nat.sub_0_r in Hi.
    eexists. split; [cbn [snd files]; apply lookup_insert_eq|].
    unfold quotable_lines. rewrite (split_quoted content i line line' Hi Hq).
    split; [apply length_insert|].
    apply (filter_insert_one (fun l => is_Some (FixTitleQuotes.quote_line l))
             (split nl content) i line line' Hi); [by rewrite Hq|].
    destruct (quote_line_changes content i line line' Hi Hq) as [-> _]. by intros [? ?].
  - exfalso. unfold quotable_lines in Hsome.
    pose proof (proj1 (scan_none (split nl content) 0) Hscan) as Hnone.
    destruct (filter _ (split nl content)) as [|l ls] eqn:Hfilter; [done|].
    assert (l ∈ filter (fun l => is_Some (FixTitleQuotes.quote_line l))
                  (split nl content)) as Hl by (rewrite Hfilter; by left).
    apply list_elem_of_filter in Hl as [[l' Hq] Hl]. by rewrite (Hnone l Hl) in Hq.
Qed.

Lemma quoter_run_witness :
  let p := [py "docs"; py "blog"; py "posts"; py "post.md"] in
  let content := doc ["title: a: b"; "title: c: d"]%string in
  let w := World {[p := Text content]} [] in
  exists content',
    files (FixTitleQuotes.fix_title_in_file p w).2 !! p = Some (Text content')
    /\ length (split nl content') = length (split nl content)
    /\ (length (quotable_lines content') + 1)%nat = length (quotable_lines content).
Proof.
  intros p content w. apply (quoter_run_quotes_one_line p w content).
  - reflexivity.
  - by vm_compute.
Defined.

(** ** A document without frontmatter *)

(** X9: for every document that does not begin with the opening delimiter
    and a newline, the title inserter writes a frontmatter block that
    holds the title line only, followed by the text of the document less
    its leading white space, and prints that it added the title. *)
Theorem plain_document_gets_block p w content :
  files w !! p = Some (Text content) ->
  has_frontmatter content = false ->
  add_title_to_file p w =
    (Ok tt,
     World (<[p := Text (py "---" ++ [nl] ++ py "title: " ++ resolve_title p content
                           ++ [nl] ++ py "---" ++ [nl] ++ lstrip content)]> (files w))
           (output w ++ [AddedTitle p (resolve_title p content)])).
Proof.
  intros Hp Hf. rewrite (add_title_to_file_run p w content Hp).
  unfold extract_frontmatter. rewrite Hf. cbn [negb fst snd].
  change (re_search true title_re []) with (@None mstate). cbv zeta.
  unfold new_content. by rewrite <- !app_assoc.
Qed.

Lemma plain_document_witness :
  let p := [py "docs"; py "page.md"] in
  let content := doc [""; "# Hello"; "text"]%string in
  let w := World {[p := Text content]} [] in
  add_title_to_file p w =
    (Ok tt,
     World (<[p := Text (py "---" ++ [nl] ++ py "title: " ++ resolve_title p content
                           ++ [nl] ++ py "---" ++ [nl] ++ lstrip content)]> (files w))
           (output w ++ [AddedTitle p (resolve_title p content)])).
Proof.
  intros p content w. apply (plain_document_gets_block p w content); reflexivity.
Defined.

(** ** The text of a heading *)

Lemma lstrip_head s : from_option (fun c => isspace c = false) True (head (lstrip s)).
Proof.
  induction s as [|c s IH]; [done|]. cbn [lstrip].
  by destruct (isspace c) eqn:Hc.
Qed.

Lemma strip_ends s :
  from_option (fun c => isspace c = false) True (head (strip s))
  /\ from_option (fun c => isspace c = false) True (last (strip s)).
Proof.
  unfold strip. split.
  - pose proof (lstrip_head s) as H. destruct (lstrip s) as [|c t]; [done|].
    cbn [head from_option] in H. by rewrite rstrip_cons_other.
  - unfold rstrip. rewrite last_reverse. apply lstrip_head.
Qed.

Lemma strip_keeps (P : N -> Prop) s : Forall P s -> Forall P (strip s).
Proof.
  intros H. destruct (strip_inv s) as (a & b & E & _). rewrite E in H.
  apply Forall_app in H as [_ H]. by apply Forall_app in H as [H _].
Qed.

Lemma head_omap_elem {A B} (f : A -> option B) l y :
  head (omap f l) = Some y -> exists x, x ∈ l /\ f x = Some y.
Proof.
  induction l as [|x l IH]; [done|]. cbn [omap list_omap].
  destruct (f x) as [y'|] eqn:Hx.
  - intros [= <-]. exists x. split; [by left|done].
  - intros H. apply IH in H as (x' & Hx' & Hf). exists x'. split; [by right|done].
Qed.

(** X2: the text of the heading the extractor returns is on one line and has
    no white space at either end. *)
Theorem extract_h1_trimmed content t :
  extract_h1 content = Some t ->
  Forall (fun y => (nl =? y) = false) t
  /\ from_option (fun c => isspace c = false) True (head t)
  /\ from_option (fun c => isspace c = false) True (last t).
Proof.
  unfold extract_h1. rewrite first_h1_text by apply split_no_nl.
  intros H. apply head_omap_elem in H as (line & Hline & Ht).
  apply split_lines_no_nl in Hline.
  destruct line as [|h [|c [|x r]]]; try done. cbn [h1_text] in Ht.
  destruct (_ && _); [|done]. injection Ht as <-.
  split; [|apply strip_ends].
  apply strip_keeps. by apply Forall_cons in Hline as [_ Hline].
Qed.

Lemma extract_h1_trimmed_witness :
  Forall (fun y => (nl =? y) = false) (py "Hello")
  /\ from_option (fun c => isspace c = false) True (head (py "Hello"))
  /\ from_option (fun c => isspace c = false) True (last (py "Hello")).
Proof.
  apply (extract_h1_trimmed (doc ["#   Hello  "; "text"]%string)). reflexivity.
Defined.

(** ** The first file that fails *)

Lemma read_text_error p w e : read_error w p = Some e -> read_text p w = (Raise e, w).
Proof.
  unfold read_error, read_text. destruct (files w !! p) as [[s|]|]; [done| |];
    by intros [= <-].
Qed.

Lemma inserter_stops_at_failure pre bad post w n w1 e :
  process pre 0 w = (Ok n, w1) ->
  excluded bad = false ->
  read_error w1 bad = Some e ->
  AddMissingTitles.main (pre ++ bad :: post) w = (Raise e, w1).
Proof.
  intros Hpre Hexc Hbad. unfold AddMissingTitles.main, io_bind.
  rewrite (process_app pre (bad :: post) 0 w n w1 Hpre).
  cbn [process]. rewrite Hexc. unfold io_bind.
  by rewrite (add_title_to_file_fails bad w1 e (read_text_error bad w1 e Hbad)).
Qed.

Lemma quoter_stops_at_failure pre bad post w w1 e :
  FixTitleQuotes.process pre w = (Ok tt, w1) ->
  read_error w1 bad = Some e ->
  FixTitleQuotes.main (pre ++ bad :: post) w = (Raise e, w1).
Proof.
  intros Hpre Hbad. unfold FixTitleQuotes.main, io_bind.
  rewrite (quoter_process_app pre (bad :: post) w w1 Hpre).
  cbn [FixTitleQuotes.process]. unfold io_bind.
  by rewrite (fix_title_in_file_fails bad w1 e (read_text_error bad w1 e Hbad)).
Qed.

(** C2 (amended): in either script, for every batch of files, if
    processing one file fails (its content cannot be decoded as text or
    its path does not exist; for the title inserter the file is one that
    is not excluded, since it does not read the others), the exception is
    not caught: it ends the whole run at that file.  The files before it
    have been processed, the failing file and every file after it are not
    processed, and the closing line is not printed.  Each script stands on
    its own: nothing is asked of the other script on the same files. *)
Theorem first_failure_ends_batch :
  (forall pre bad post w n w1 e,
     process pre 0 w = (Ok n, w1) ->
     excluded bad = false ->
     read_error w1 bad = Some e ->
     AddMissingTitles.main (pre ++ bad :: post) w = (Raise e, w1))
  /\ (forall pre bad post w w1 e,
        FixTitleQuotes.process pre w = (Ok tt, w1) ->
        read_error w1 bad = Some e ->
        FixTitleQuotes.main (pre ++ bad :: post) w = (Raise e, w1)).
Proof.
  split.
  - intros pre bad post w n w1 e. apply inserter_stops_at_failure.
  - intros pre bad post w w1 e. apply quoter_stops_at_failure.
Qed.

(** The inserter gets past an excluded file that cannot be read and fails
    at the next one; the quoter rewrites the first file and fails at the
    second. *)
Lemma first_failure_witness :
  let tags := [py "docs"; py "tags.md"] in
  let first := [py "docs"; py "a.md"] in
  let bad := [py "docs"; py "gone.md"] in
  let last := [py "docs"; py "z.md"] in
  let w := World {[tags := Undecodable; first := Text (py "title: a: b");
                   last := Text (py "text")]} [] in
  AddMissingTitles.main ([tags; first] ++ bad :: [last]) w
  = (Raise FileNotFoundError, (process [tags; first] 0 w).2)
  /\ files (process [tags; first] 0 w).2 !! last = Some (Text (py "text"))
  /\ FixTitleQuotes.main ([first] ++ bad :: [last]) w
     = (Raise FileNotFoundError, (FixTitleQuotes.process [first] w).2)
  /\ files (FixTitleQuotes.process [first] w).2 !! last = Some (Text (py "text")).
Proof.
  intros tags first bad last w.
  split; [|split; [reflexivity|split; [|reflexivity]]].
  - apply (proj1 first_failure_ends_batch [tags; first] bad [last] w 1%nat);
      reflexivity.
  - apply (proj2 first_failure_ends_batch [first] bad [last] w); reflexivity.
Defined.

(** ** The quoter without its patterns *)

Lemma is_quote_spec c : is_quote c = false <-> c ∉ FixTitleQuotes.quotes.
Proof.
  unfold is_quote, FixTitleQuotes.quotes. rewrite orb_false_iff, !N.eqb_neq.
  rewrite !not_elem_of_cons. split; [intros [? ?]|intros (? & ? & _)]; split; try done.
  split; [done|apply not_elem_of_nil].
Qed.

Lemma isspace_not_quote c : isspace c = true -> is_quote c = false.
Proof.
  intros Hc. unfold is_quote. apply orb_false_iff.
  split; apply N.eqb_neq; intros ->; by vm_compute in Hc.
Qed.

Lemma snoc_decomp {A} (l : list A) : l <> [] -> exists m x, l = m ++ [x].
Proof. destruct l as [|y l] using rev_ind; [done|]. intros _. by exists l, y. Qed.

Lemma colon_before_last_spec s :
  colon_before_last s = true <-> exists x m cl, s = x ++ ch ":" :: m ++ [cl].
Proof.
  induction s as [|c s IH].
  - split; [done|]. intros (x & m & cl & H). by destruct x.
  - destruct s as [|d s].
    + split; [done|]. intros (x & m & cl & H).
      destruct x as [|? [|? ?]]; destruct m; done.
    + change (colon_before_last (c :: d :: s))
        with ((c =? ch ":") || colon_before_last (d :: s)).
      rewrite orb_true_iff, IH, N.eqb_eq. split.
      * intros [->|(x & m & cl & ->)].
        -- destruct (snoc_decomp (d :: s)) as (m & cl & ->); [done|]. by exists [], m, cl.
        -- by exists (c :: x), m, cl.
      * intros (x & m & cl & H). destruct x as [|c' x].
        -- injection H as -> _. by left.
        -- injection H as -> H. right. by exists x, m, cl.
Qed.

(** The full reading of a line the first pattern matches. *)
Lemma unquoted_re_shape line m :
  re_match false FixTitleQuotes.unquoted_re line = Some m ->
  exists w c1 m1 m2 cl tail,
    line = py "title:" ++ w ++ c1 :: m1 ++ ch ":" :: m2 ++ cl :: tail
    /\ w <> [] /\ Forall (fun c => isspace c = true) w
    /\ is_quote c1 = false /\ is_quote cl = false
    /\ (tail = [] \/ tail = [nl]).
Proof.
  intros Hm. apply rmatch_sound in Hm as (s' & H & _).
  apply steps_cat_inv in H as (s1 & H1 & H). apply steps_bol_inv in H1 as ->.
  apply steps_cat_inv in H as (s2 & H2 & H). apply steps_lit_inv in H2 as [E2 _].
  apply steps_cat_inv in H as (s3 & H3 & H).
  apply steps_plus_cls_inv in H3 as (w0 & w & E3 & Hw & _).
  apply steps_cat_inv in H as (s4 & H4 & H).
  apply steps_cls_inv in H4 as (c1 & E4 & Hc1 & _).
  apply steps_cat_inv in H as (s5 & H5 & H).
  apply steps_star_cls_inv in H5 as (m1 & E5 & _ & _).
  apply steps_cat_inv in H as (s6 & H6 & H). apply steps_chr_inv in H6 as [E6 _].
  apply steps_cat_inv in H as (s7 & H7 & H).
  apply steps_star_cls_inv in H7 as (m2 & E7 & _ & _).
  apply steps_cat_inv in H as (s8 & H8 & H).
  apply steps_cls_inv in H8 as (cl & E8 & Hcl & _).
  apply steps_cat_inv in H as (s9 & H9 & _).
  apply steps_eol_inv in H9 as [-> Heol]. apply at_eol_inv in Heol.
  exists (w0 :: w), c1, m1, m2, cl, (rest s8). cbn [rest] in E2.
  rewrite E2, E3, E4, E5, E6, E7, E8.
  split; [by rewrite <- ?app_assoc|]. split; [done|]. split; [done|].
  apply negb_true_iff, bool_decide_eq_false in Hc1, Hcl.
  by rewrite !is_quote_spec.
Qed.

(** Two readings of one text as white space and what follows. *)
Lemma spaces_align w : forall c1 r W v0 v,
  w ++ c1 :: r = W ++ v0 :: v ->
  Forall (fun c => isspace c = true) w ->
  Forall (fun c => isspace c = true) W ->
  isspace v0 = false ->
  (w = W /\ c1 = v0 /\ r = v) \/ (exists W2, W = w ++ c1 :: W2 /\ r = W2 ++ v0 :: v).
Proof.
  induction w as [|a w IH]; intros c1 r W v0 v E Hw HW Hv0.
  - destruct W as [|b W]; cbn [app] in E.
    + injection E as -> ->. by left.
    + injection E as -> ->. right. by exists W.
  - apply Forall_cons in Hw as [Ha Hw]. destruct W as [|b W]; cbn [app] in E.
    + injection E as -> _. congruence.
    + injection E as -> E. apply Forall_cons in HW as [_ HW].
      destruct (IH c1 r W v0 v E Hw HW Hv0) as [(-> & -> & ->)|(W2 & -> & ->)].
      * by left.
      * right. by exists W2.
Qed.

Lemma colon_after_spaces W2 : forall v m1 t,
  W2 ++ v = m1 ++ ch ":" :: t ->
  Forall (fun c => isspace c = true) W2 ->
  exists x, v = x ++ ch ":" :: t.
Proof.
  induction W2 as [|a W2 IH]; intros v m1 t E HW.
  - by exists m1.
  - apply Forall_cons in HW as [Ha HW]. destruct m1 as [|b m1]; cbn [app] in E.
    + injection E as -> _. by vm_compute in Ha.
    + injection E as _ E. by apply (IH v m1 t).
Qed.

Lemma nl_free_tail (a tail : list N) :
  Forall (fun y => (nl =? y) = false) (a ++ tail) ->
  tail = [] \/ tail = [nl] -> tail = [].
Proof.
  intros H [->| ->]; [done|]. apply Forall_app in H as [_ H]. by inversion H.
Qed.

(** When the first pattern matches a line with white space and a value
    that does not start with a quote. *)
Lemma unquoted_re_plain W v0 v :
  W <> [] -> Forall (fun c => isspace c = true) W ->
  isspace v0 = false -> is_quote v0 = false ->
  Forall (fun y => (nl =? y) = false) (W ++ v0 :: v) ->
  is_Some (re_match false FixTitleQuotes.unquoted_re (py "title:" ++ W ++ v0 :: v))
  <-> from_option is_quote false (last (v0 :: v)) = false
      /\ colon_before_last
           (if bool_decide (2 <= length W)%nat then v0 :: v else v) = true.
Proof.
  intros HW0 HW Hv0 Hq Hnl. split.
  - intros [m Hm]. apply unquoted_re_shape in Hm
      as (w & c1 & m1 & m2 & cl & tail & E & Hw0 & Hw & Hc1 & Hcl & Htail).
    apply app_inv_head in E.
    assert (tail = []) as ->.
    { apply (nl_free_tail (w ++ c1 :: m1 ++ ch ":" :: m2 ++ [cl])); [|done].
      rewrite E in Hnl. by repeat first [rewrite <- app_assoc | progress cbn [app]]. }
    destruct (spaces_align w c1 _ W v0 v (eq_sym E) Hw HW Hv0)
      as [(-> & -> & <-)|(W2 & -> & Hr)].
    + split.
      * rewrite !app_comm_cons, !app_assoc, last_snoc. done.
      * case_bool_decide; apply colon_before_last_spec.
        -- by exists (v0 :: m1), m2, cl.
        -- by exists m1, m2, cl.
    + apply Forall_app in HW as [_ HW]. apply Forall_cons in HW as [_ HW].
      destruct (colon_after_spaces W2 (v0 :: v) m1 (m2 ++ [cl]) (eq_sym Hr) HW)
        as [x Hx].
      split.
      * rewrite Hx, !app_comm_cons, !app_assoc, last_snoc. done.
      * rewrite bool_decide_eq_true_2.
        -- apply colon_before_last_spec. by exists x, m2, cl.
        -- rewrite length_app. destruct w; [done|]. simpl. lia.
  - intros [Hlast Hcolon]. case_bool_decide as HlenW.
    + apply colon_before_last_spec in Hcolon as (x & m2 & cl & Hv).
      destruct (snoc_decomp W HW0) as (W' & c1 & ->).
      rewrite Hv in *. rewrite !app_comm_cons, !app_assoc, last_snoc in Hlast.
      rewrite <- !app_assoc in *. cbn [app] in *.
      apply unquoted_re_matches.
      * intros ->. simpl in HlenW. lia.
      * by apply Forall_app in HW as [HW _].
      * apply is_quote_spec, isspace_not_quote.
        apply Forall_app in HW as [_ HW]. by apply Forall_cons in HW as [HW _].
      * by apply is_quote_spec.
      * repeat first [rewrite Forall_app in Hnl | rewrite Forall_cons in Hnl].
        rewrite Forall_app, Forall_cons.
        destruct Hnl as (_ & _ & H1 & H2 & H3 & _). done.
    + apply colon_before_last_spec in Hcolon as (x & m2 & cl & ->).
      rewrite !app_comm_cons, !app_assoc, last_snoc in Hlast.
      rewrite <- ?app_assoc in *. cbn [app] in *.
      apply unquoted_re_matches; [done|done|by apply is_quote_spec|by apply is_quote_spec|].
      repeat first [rewrite Forall_app in Hnl | rewrite Forall_cons in Hnl].
      rewrite Forall_app, Forall_cons.
      destruct Hnl as (_ & _ & H1 & H2 & H3 & _). done.
Qed.

Lemma lstrip_length s :
  exists W, s = W ++ lstrip s /\ Forall (fun c => isspace c = true) W
            /\ (length s - length (lstrip s))%nat = length W.
Proof.
  destruct (lstrip_inv s) as (W & E & HW). exists W. split; [done|]. split; [done|].
  rewrite E at 1. rewrite length_app. lia.
Qed.

(** The loop body of the quoter, read without its patterns: on a line it
    quotes exactly the title lines [title_value] describes, and what it
    puts between the quotes is the value [title_value] gives. *)
Lemma quote_line_plain line :
  Forall (fun y => (nl =? y) = false) line ->
  FixTitleQuotes.quote_line line = quoted_title <$> title_value line.
Proof.
  intros Hnl. unfold title_value.
  destruct (startswith (py "title:") line) eqn:Hstart.
  - apply startswith_spec in Hstart as [text ->]. rewrite drop_app_length.
    apply Forall_app in Hnl as [_ Hnl].
    destruct (lstrip_length text) as (W & E & HW & ->).
    pose proof (lstrip_head text) as Hhead.
    destruct (lstrip text) as [|v0 v] eqn:Hv.
    + (* nothing but white space after the key *)
      unfold FixTitleQuotes.quote_line.
      destruct (re_match false FixTitleQuotes.unquoted_re _) as [m|] eqn:Hm; [|done].
      exfalso. apply unquoted_re_colon in Hm as (x & y & Hm).
      apply app_inv_head in Hm. rewrite E, app_nil_r in Hm. rewrite Hm in HW.
      apply Forall_app in HW as [_ HW]. apply Forall_cons in HW as [HW _].
      by vm_compute in HW.
    + cbn [head from_option] in Hhead. rewrite E. rewrite E in Hnl.
      destruct W as [|w0 W'].
      * (* no white space after the key *)
        cbn [length bool_decide andb app fmap option_fmap option_map].
        rewrite bool_decide_eq_false_2 by lia. cbn [andb].
        unfold FixTitleQuotes.quote_line.
        destruct (re_match false FixTitleQuotes.value_re _) as [m|] eqn:Hm.
        { exfalso. apply value_re_inv in Hm as (ws & tail & Hm & Hne & Hws & _).
          apply app_inv_head in Hm. destruct ws as [|c ws]; [done|].
          injection Hm as <- _. apply Forall_cons in Hws as [Hws _]. congruence. }
        by destruct (re_match false FixTitleQuotes.unquoted_re _).
      * rewrite bool_decide_eq_true_2 by (simpl; lia). cbn [andb].
        unfold FixTitleQuotes.quote_line.
        destruct (value_re_captures (w0 :: W') v0 v) as (m & -> & ->);
          [done|done|done|by apply Forall_app in Hnl as [_ Hnl]|].
        cbn [startswith]. rewrite !andb_true_r.
        rewrite (N.eqb_sym dquote), (N.eqb_sym squote). fold (is_quote v0).
        destruct (is_quote v0) eqn:Hq; cbn [negb andb].
        { by destruct (re_match false FixTitleQuotes.unquoted_re _). }
        pose proof (unquoted_re_plain (w0 :: W') v0 v) as Hplain.
        destruct Hplain as [Hto Hfrom]; [done|done|done|done|done|].
        destruct (re_match false FixTitleQuotes.unquoted_re _) as [m0|].
        -- destruct Hto as [-> ->]; [by eexists|]. done.
        -- destruct (from_option is_quote false (last (v0 :: v))) eqn:Hlast;
             [done|]. cbn [negb andb].
           destruct (colon_before_last _) eqn:Hcolon; [|done].
           by destruct Hfrom as [? ?].
  - unfold FixTitleQuotes.quote_line.
    destruct (re_match false FixTitleQuotes.unquoted_re line) as [m|] eqn:Hm; [|done].
    exfalso. apply unquoted_re_colon in Hm as (x & y & ->).
    assert (startswith (py "title:") (py "title:" ++ x ++ ch ":" :: y) = true) as H
      by (apply startswith_spec; by eexists).
    congruence.
Qed.

Lemma scan_plain lines : forall k,
  Forall (Forall (fun y => (nl =? y) = false)) lines ->
  FixTitleQuotes.scan lines k
  = (fun found => (found.1, quoted_title found.2)) <$> first_title_value lines k.
Proof.
  induction lines as [|line lines IH]; intros k Hnl; [done|].
  apply Forall_cons in Hnl as [Hline Hnl].
  cbn [FixTitleQuotes.scan first_title_value]. rewrite (quote_line_plain line Hline).
  destruct (title_value line) as [value|]; [done|]. by apply IH.
Qed.

Lemma first_title_value_at lines i line value : forall k,
  lines !! i = Some line ->
  title_value line = Some value ->
  (forall j l, (j < i)%nat -> lines !! j = Some l -> title_value l = None) ->
  first_title_value lines k = Some ((k + i)%nat, value).
Proof.
  revert i. induction lines as [|l lines IH]; intros i k Hi Hv Hfirst; [done|].
  cbn [first_title_value]. destruct i as [|i].
  - injection Hi as ->. rewrite Hv. by rewrite Nat.add_0_r.
  - rewrite (Hfirst 0%nat l) by (done || lia).
    rewrite (IH i (S k)); [f_equal; f_equal; lia|done|done|].
    intros j l0 Hj Hl0. apply (Hfirst (S j)); [lia|done].
Qed.

Lemma first_title_value_none lines k :
  (forall l, l ∈ lines -> title_value l = None) -> first_title_value lines k = None.
Proof.
  revert k. induction lines as [|l lines IH]; intros k Hnone; [done|].
  cbn [first_title_value]. rewrite (Hnone l) by (by left). apply IH.
  intros l' Hl'. apply Hnone. by right.
Qed.

(** What a run of the quoter does to a file, read without the patterns. *)
Lemma fix_title_in_file_plain p w content :
  files w !! p = Some (Text content) ->
  FixTitleQuotes.fix_title_in_file p w =
    match first_title_value (split nl content) 0 with
    | Some (i, value) =>
        (Ok tt,
         World (<[p := Text (join [nl] (<[i := quoted_title value]> (split nl content)))]>
                  (files w))
               (output w ++ [QuotedTitle p]))
    | None => (Ok tt, w)
    end.
Proof.
  intros Hp. rewrite (fix_title_in_file_run p w content Hp).
  rewrite (scan_plain _ 0 (split_no_nl content)).
  by destruct (first_title_value (split nl content) 0) as [[i value]|].
Qed.

(** A quoted title line is no title line to quote. *)
Lemma title_value_quoted value : 
  Forall (fun y => (nl =? y) = false) value ->
  title_value (quoted_title value) = None.
Proof.
  intros Hnl. pose proof (quote_line_plain (quoted_title value)) as H.
  unfold quoted_title in H at 2. rewrite quote_line_quoted in H.
  destruct (title_value (quoted_title value)); [|done].
  discriminate H. unfold quoted_title.
  rewrite !Forall_app. split; [by repeat constructor|]. split; [by repeat constructor|].
  split; [done|by repeat constructor].
Qed.

(** The value of a title line is on the line after the key and all the
    white space that follows the key. *)
Lemma title_value_inv line value :
  title_value line = Some value ->
  exists ws, line = py "title:" ++ ws ++ value
             /\ ws <> [] /\ Forall (fun c => isspace c = true) ws
             /\ value = lstrip (ws ++ value)
             /\ from_option (fun c => isspace c = false) False (head value).
Proof.
  unfold title_value. destruct (startswith (py "title:") line) eqn:Hstart; [|done].
  apply startswith_spec in Hstart as [text ->]. rewrite drop_app_length.
  destruct (lstrip_length text) as (W & E & HW & ->).
  pose proof (lstrip_head text) as Hhead.
  destruct (lstrip text) as [|v0 v] eqn:Hv; [done|].
  case_bool_decide as Hlen; [|done]. cbn [andb]. destruct (_ && _); [|done].
  intros [= <-]. exists W. rewrite E at 1. split; [done|]. split.
  { intros ->. simpl in Hlen. lia. }
  split; [done|]. split; [|done].
  rewrite lstrip_spaces by done. cbn [lstrip]. cbn [head from_option] in Hhead.
  by rewrite Hhead.
Qed.

Example title_values :
  title_value (py "title: Part One: The Beginning") = Some (py "Part One: The Beginning")
  /\ title_value (py "title:   spaced: out") = Some (py "spaced: out")
  /\ title_value (py "title: a:") = None
  /\ title_value (py "title: :x") = None
  /\ title_value (py "title:  :x") = Some (py ":x")
  /\ title_value (py "title:a: b") = None
  /\ title_value (py "title: 'a: b") = None
  /\ title_value (py "title: a: b'") = None
  /\ title_value (py "title: no colon") = None
  /\ title_value (py " title: a: b") = None.
Proof. by vm_compute. Qed.



(** C9 (amended): for every document containing a title line to quote (a
    line that is [title:], one or more white space characters, and a value
    that starts with a character that is neither white space nor a quote,
    does not end with a quote, and has a colon with at least one character
    after it, the colon not being the first character of the value unless
    two or more white space characters come before the value), the Quoter
    rewrites the first such line, and that line only, to
    [title: "<value>"], the value being the text after [title:] and all
    the white space that follows it, and changes nothing else in the
    document.  The rewritten line is no such line any more, and a second
    run is a no-op when no later line of the document is such a line. *)
Theorem quoter_quotes_first_title p w content i line value :
  let lines := split nl content in
  let w' := World (<[p := Text (join [nl] (<[i := quoted_title value]> lines))]> (files w))
                  (output w ++ [QuotedTitle p]) in
  files w !! p = Some (Text content) ->
  lines !! i = Some line ->
  title_value line = Some value ->
  (forall j l, (j < i)%nat -> lines !! j = Some l -> title_value l = None) ->
  FixTitleQuotes.fix_title_in_file p w = (Ok tt, w')
  /\ (exists ws,
        line = py "title:" ++ ws ++ value
        /\ ws <> [] /\ Forall (fun c => isspace c = true) ws
        /\ from_option (fun c => isspace c = false) False (head value))
  /\ title_value (quoted_title value) = None
  /\ ((forall j l, (i < j)%nat -> lines !! j = Some l -> title_value l = None) ->
      FixTitleQuotes.fix_title_in_file p w' = (Ok tt, w')).
Proof.
  intros lines w' Hp Hi Hv Hfirst.
  assert (Forall (fun y => (nl =? y) = false) line) as Hline.
  { pose proof (split_no_nl content) as Hall. rewrite Forall_forall in Hall.
    apply Hall. by apply list_elem_of_lookup_2 in Hi. }
  destruct (title_value_inv line value Hv) as (ws & Hshape & Hne & Hws & _ & Hhead).
  assert (Forall (fun y => (nl =? y) = false) value) as Hvalue.
  { rewrite Hshape, !Forall_app in Hline. by destruct Hline as (_ & _ & ?). }
  pose proof (title_value_quoted value Hvalue) as Hquoted.
  assert (FixTitleQuotes.quote_line line = Some (quoted_title value)) as Hq
    by (by rewrite (quote_line_plain line Hline), Hv).
  split; [|split; [by exists ws|split; [done|]]].
  - rewrite (fix_title_in_file_plain p w content Hp). fold lines.
    by rewrite (first_title_value_at lines i line value 0 Hi Hv Hfirst).
  - intros Hlater.
    rewrite (fix_title_in_file_plain p w' _ (lookup_insert_eq _ _ _)).
    unfold lines. rewrite (split_quoted content i line _ Hi Hq). fold lines.
    rewrite first_title_value_none; [done|].
    intros l Hl. apply list_elem_of_lookup in Hl as [j Hj].
    destruct (decide (j = i)) as [-> | Hne'].
    + rewrite list_lookup_insert_eq in Hj by (by apply lookup_lt_Some in Hi).
      by injection Hj as <-.
    + rewrite list_lookup_insert_ne in Hj by done.
      destruct (decide (j < i)%nat); [by apply (Hfirst j)|].
      apply (Hlater j); [lia|done].
Qed.

(** A frontmatter with three white space characters before the value:
    the value is quoted without them, the other lines stay, and the
    second run does nothing. *)
Lemma quoter_quotes_first_title_witness :
  let p := [py "docs"; py "blog"; py "posts"; py "post.md"] in
  let content := doc ["---"; "title:   spaced: out"; "---"; "text"]%string in
  let w := World {[p := Text content]} [] in
  let quoted := py "title: " ++ [dquote] ++ py "spaced: out" ++ [dquote] in
  let w1 := World (<[p := Text (join [nl] (<[1%nat := quoted]> (split nl content)))]>
                     (files w)) (output w ++ [QuotedTitle p]) in
  FixTitleQuotes.fix_title_in_file p w = (Ok tt, w1)
  /\ FixTitleQuotes.fix_title_in_file p w1 = (Ok tt, w1).
Proof.
  intros p content w quoted w1.
  destruct (quoter_quotes_first_title p w content 1 (py "title:   spaced: out")
              (py "spaced: out")) as (Hrun & _ & _ & Hagain).
  - reflexivity.
  - reflexivity.
  - reflexivity.
  - intros j l Hj Hl. assert (j = 0%nat) as -> by lia.
    vm_compute in Hl. injection Hl as <-. reflexivity.
  - split; [exact Hrun|]. apply Hagain.
    intros j l Hj Hl. destruct j as [|[|[|[|j]]]]; try lia.
    + vm_compute in Hl. injection Hl as <-. reflexivity.
    + vm_compute in Hl. injection Hl as <-. reflexivity.
    + by vm_compute in Hl.
Defined.

(** X18: the loop body of the quoter, read without its patterns.  On a
    line it rewrites exactly the lines that are [title:], one or more white
    space characters, and a value that starts with a character that is
    neither white space nor a quote, does not end with a quote, and has a
    colon with at least one character after it, the colon not being the
    first character of the value unless two or more white space characters
    come before the value; the new line is [title: "<value>"]. *)
Theorem quoter_line_plain line :
  Forall (fun y => (nl =? y) = false) line ->
  FixTitleQuotes.quote_line line = quoted_title <$> title_value line.
Proof. apply quote_line_plain. Qed.

Lemma quoter_line_plain_witness :
  FixTitleQuotes.quote_line (py "title:  :x") = quoted_title <$> title_value (py "title:  :x").
Proof. apply (quoter_line_plain (py "title:  :x")). repeat constructor. Defined.
